(** * Aviation weather normalisation and classification: a Rocq model

    A shallow embedding of the parsing and classification logic of the
    aviation-weather MCP server:

    - [src/services/aviationWeather.ts] (class [AviationWeatherService]):
      [parseVisibility], [parseClouds], [determineFlightCategory], the
      mappings [parseMetarResponse], [parseTafResponse],
      [parsePirepResponse] and [parseAirmetResponse] with their string
      classifiers, [getMetar], [getTaf], [getPireps], [getAirmets] and
      [getStationInfo] after the fetch, the station list they send, and
      the raw-text branches of [getMetarByBounds] and [getTafByBounds];
    - the analysis tools file ([setupAnalysisTools]): the two-argument
      [determineFlightCategory], [checkVfrMinimums], [decodeMetar] and the
      [decode-metar] tool handler.

    Part I models the fragment of the JavaScript runtime these functions
    rely on (numbers, loosely typed JSON values, truthiness, exceptions,
    string methods, the regular expressions used, [parseFloat]/[parseInt]);
    Part II embeds the functions; Part III holds the notions the properties
    are stated with; Part IV states and proves the properties. *)

From Stdlib Require Import ZArith QArith Lia List Bool Ascii String
  DecimalString.
Import ListNotations.

Set Implicit Arguments.
Set Warnings "-register-all".

Close Scope Q_scope.
Open Scope nat_scope.

(* ================================================================== *)
(** * Part I. The JavaScript fragment *)
(* ================================================================== *)

Module Js.

(** ** Numbers

    A JavaScript number is [NaN], an infinity, or a finite double.  A finite
    double is a rational number and [<] compares doubles exactly, so a finite
    number is represented by its value [q : Q]; a statement about every
    [Fin q] covers every double.  The two signed zeros are identified (they
    are indistinguishable to [<], [!x] and [||]).  Reading a decimal literal
    yields its exact value: the rounding to the nearest double (and with it
    overflow and underflow) is not modelled. *)

Inductive JsNum : Type :=
| NaN
| PosInf
| NegInf
| Fin (q : Q).

Definition Qltb (p q : Q) : bool :=
  (Qnum p * QDen q <? Qnum q * QDen p)%Z.

(** The [<] operator on numbers: false whenever an operand is [NaN]. *)
Definition js_lt (a b : JsNum) : bool :=
  match a, b with
  | NaN, _ | _, NaN => false
  | PosInf, _ => false
  | _, NegInf => false
  | NegInf, _ => true
  | Fin _, PosInf => true
  | Fin p, Fin q => Qltb p q
  end.

(** [ToBoolean] on a number: [NaN] and zero are falsy. *)
Definition truthy_num (n : JsNum) : bool :=
  match n with
  | NaN => false
  | Fin q => negb (Qnum q =? 0)%Z
  | PosInf | NegInf => true
  end.

Definition of_Z (z : Z) : JsNum := Fin (inject_Z z).

(** [n || undefined] for a number [n]. *)
Definition num_or_undefined (n : JsNum) : option JsNum :=
  if truthy_num n then Some n else None.

(** ** Strings

    Strings are sequences of 8-bit characters.  Only the ASCII white space and
    the ASCII letter case are modelled: a character above 127 is neither white
    space nor a letter with a case. *)

Open Scope string_scope.

Definition code (c : ascii) : nat := nat_of_ascii c.

Definition isDigit (c : ascii) : bool := ((48 <=? code c) && (code c <=? 57))%nat.
Definition isUpper (c : ascii) : bool := ((65 <=? code c) && (code c <=? 90))%nat.
Definition isLower (c : ascii) : bool := ((97 <=? code c) && (code c <=? 122))%nat.

(** Tab, line feed, vertical tab, form feed, carriage return, space. *)
Definition isWhitespace (c : ascii) : bool :=
  (((9 <=? code c) && (code c <=? 13)) || (code c =? 32))%nat.

Definition digitVal (c : ascii) : Z := Z.of_nat (code c - 48).

(** [s.trimStart()], [s.trimEnd()], [s.trim()] *)
Fixpoint trimStart (s : string) : string :=
  match s with
  | EmptyString => EmptyString
  | String c t => if isWhitespace c then trimStart t else s
  end.

Fixpoint trimEnd (s : string) : string :=
  match s with
  | EmptyString => EmptyString
  | String c t =>
      match trimEnd t with
      | EmptyString => if isWhitespace c then EmptyString else String c EmptyString
      | t' => String c t'
      end
  end.

Definition trim (s : string) : string := trimEnd (trimStart s).

(** [s.split(sep)] for a one-character separator. *)
Fixpoint split_char (sep : ascii) (s : string) : list string :=
  match s with
  | EmptyString => [EmptyString]
  | String c t =>
      if Ascii.eqb c sep then EmptyString :: split_char sep t
      else match split_char sep t with
           | h :: r => String c h :: r
           | [] => [String c EmptyString]
           end
  end.

(** [s.split(/\s+/)]: [inSep] records that the previous character belonged to
    a separator run. *)
Fixpoint split_ws_from (inSep : bool) (s : string) : list string :=
  match s with
  | EmptyString => [EmptyString]
  | String c t =>
      if isWhitespace c then
        if inSep then split_ws_from true t
        else EmptyString :: split_ws_from true t
      else match split_ws_from false t with
           | h :: r => String c h :: r
           | [] => [String c EmptyString]
           end
  end.

Definition split_ws (s : string) : list string := split_ws_from false s.

(** [s.startsWith(p)], [s.endsWith(p)], [s.includes(p)] *)
Definition startsWith (s p : string) : bool := String.prefix p s.

Fixpoint endsWith (s p : string) : bool :=
  String.eqb s p ||
  match s with
  | EmptyString => false
  | String _ t => endsWith t p
  end.

Fixpoint includes (s p : string) : bool :=
  String.prefix p s ||
  match s with
  | EmptyString => false
  | String _ t => includes t p
  end.

Fixpoint drop (n : nat) (s : string) : string :=
  match n, s with
  | O, _ => s
  | S n', EmptyString => EmptyString
  | S n', String _ t => drop n' t
  end.

(** [s.replace(pat, rep)] with a string pattern: the first occurrence only. *)
Fixpoint replaceFirst (pat rep s : string) : string :=
  if String.prefix pat s then rep ++ drop (String.length pat) s
  else match s with
       | EmptyString => EmptyString
       | String c t => String c (replaceFirst pat rep t)
       end.

(** [s.substring(a, b)] for [a <= b]. *)
Definition js_substring (a b : nat) (s : string) : string :=
  String.substring a (b - a) s.

Definition upperChar (c : ascii) : ascii :=
  if isLower c then ascii_of_nat (code c - 32) else c.

(** [s.toUpperCase()] *)
Fixpoint toUpperCase (s : string) : string :=
  match s with
  | EmptyString => EmptyString
  | String c t => String (upperChar c) (toUpperCase t)
  end.

(** [xs.join(sep)] *)
Fixpoint join (sep : string) (xs : list string) : string :=
  match xs with
  | [] => EmptyString
  | [x] => x
  | x :: rest => x ++ sep ++ join sep rest
  end.

Definition nl : string := String "010" EmptyString.

(** A non-empty string is truthy. *)
Definition truthy_str (s : string) : bool := negb (String.eqb s "").

(** The decimal digits of an integer; [None] is [NaN].  (Template literals
    and [toString] print integers below 1e21 this way.) *)
Definition showInt (o : option Z) : string :=
  match o with
  | Some z => NilZero.string_of_int (Z.to_int z)
  | None => "NaN"
  end.

(** [(n / 100).toFixed(2)] for an integer [n]: the hundredths are exact. *)
Definition showHundredths (o : option Z) : string :=
  match o with
  | Some z =>
      let a := Z.abs z in
      let frac := showInt (Some (a mod 100)%Z) in
      (if (z <? 0)%Z then "-" else "") ++ showInt (Some (a / 100)%Z) ++ "."
      ++ (if (a mod 100 <? 10)%Z then "0" ++ frac else frac)
  | None => "NaN"
  end.

(** ** Regular expressions

    The patterns used by the program are regular; [test r s] says whether [r]
    matches the whole of [s], and [search r] is the unanchored pattern. *)

Inductive Re : Type :=
| Void
| Eps
| Chr (p : ascii -> bool)
| Seq (a b : Re)
| Alt (a b : Re)
| Star (a : Re).

Fixpoint nullable (r : Re) : bool :=
  match r with
  | Void => false
  | Eps => true
  | Chr _ => false
  | Seq a b => nullable a && nullable b
  | Alt a b => nullable a || nullable b
  | Star _ => true
  end.

Fixpoint deriv (c : ascii) (r : Re) : Re :=
  match r with
  | Void | Eps => Void
  | Chr p => if p c then Eps else Void
  | Seq a b =>
      if nullable a then Alt (Seq (deriv c a) b) (deriv c b)
      else Seq (deriv c a) b
  | Alt a b => Alt (deriv c a) (deriv c b)
  | Star a => Seq (deriv c a) (Star a)
  end.

Fixpoint test (r : Re) (s : string) : bool :=
  match s with
  | EmptyString => nullable r
  | String c t => test (deriv c r) t
  end.

(** The strings a pattern denotes. *)
Inductive Matches : Re -> string -> Prop :=
| MEps : Matches Eps EmptyString
| MChr (p : ascii -> bool) (c : ascii) :
    p c = true -> Matches (Chr p) (String c EmptyString)
| MSeq (a b : Re) (s1 s2 : string) :
    Matches a s1 -> Matches b s2 -> Matches (Seq a b) (s1 ++ s2)
| MAltL (a b : Re) (s : string) : Matches a s -> Matches (Alt a b) s
| MAltR (a b : Re) (s : string) : Matches b s -> Matches (Alt a b) s
| MStarNil (a : Re) : Matches (Star a) EmptyString
| MStarApp (a : Re) (s1 s2 : string) :
    Matches a s1 -> Matches (Star a) s2 -> Matches (Star a) (s1 ++ s2).

Definition lit (c : ascii) : Re := Chr (Ascii.eqb c).
Definition digit : Re := Chr isDigit.
Definition upper : Re := Chr isUpper.
Definition anyChar : Re := Chr (fun _ => true).
Definition opt (r : Re) : Re := Alt Eps r.

Fixpoint word (s : string) : Re :=
  match s with
  | EmptyString => Eps
  | String c t => Seq (lit c) (word t)
  end.

(** [r{n}] and [r{0,n}] *)
Fixpoint times (n : nat) (r : Re) : Re :=
  match n with
  | O => Eps
  | S n' => Seq r (times n' r)
  end.

Fixpoint upto (n : nat) (r : Re) : Re :=
  match n with
  | O => Eps
  | S n' => opt (Seq r (upto n' r))
  end.

Definition plus (r : Re) : Re := Seq r (Star r).

Definition search (r : Re) : Re := Seq (Star anyChar) (Seq r (Star anyChar)).

(** ** [parseFloat] and [parseInt] on strings *)

Definition readSign (s : string) : bool * string :=
  match s with
  | String "-" t => (true, t)
  | String "+" t => (false, t)
  | _ => (false, s)
  end.

(** Reads a run of decimal digits: the value accumulated on [acc], the number
    of digits read, and the rest. *)
Fixpoint readDigits (s : string) (acc : Z) (n : nat) : Z * nat * string :=
  match s with
  | String c t =>
      if isDigit c then readDigits t (acc * 10 + digitVal c) (S n)
      else (acc, n, s)
  | EmptyString => (acc, n, s)
  end.

(** [m * 10^k] as a reduced rational. *)
Definition scale10 (m k : Z) : Q :=
  if (0 <=? k)%Z then inject_Z (m * 10 ^ k)
  else Qred (Qmake m (Z.to_pos (10 ^ (- k)))).

Definition isExpMark (c : ascii) : bool := Ascii.eqb c "e" || Ascii.eqb c "E".

(** The exponent part [e[+-]digits], when complete; otherwise none is read. *)
Definition readExponent (s : string) : Z :=
  match s with
  | String c t =>
      if isExpMark c then
        let (eneg, t') := readSign t in
        let '(ev, ne, _) := readDigits t' 0 0 in
        if (ne =? 0)%nat then 0%Z else if eneg then (- ev)%Z else ev
      else 0%Z
  | EmptyString => 0%Z
  end.

(** [parseFloat(s)]: leading white space is skipped, then the longest prefix
    that is a decimal literal ([Infinity], or digits with an optional
    fraction and exponent) is read; [NaN] when there is none. *)
Definition parseFloatStr (s : string) : JsNum :=
  let (neg, s2) := readSign (trimStart s) in
  if String.prefix "Infinity" s2 then (if neg then NegInf else PosInf)
  else
    let '(ip, ni, s3) := readDigits s2 0 0 in
    let '(m, nf, s4) :=
      match s3 with
      | String "." t => readDigits t ip 0
      | _ => (ip, O, s3)
      end in
    if (ni + nf =? 0)%nat then NaN
    else
      let e := readExponent s4 in
      Fin (scale10 (if neg then - m else m) (e - Z.of_nat nf)).

Definition hexVal (c : ascii) : option Z :=
  if isDigit c then Some (digitVal c)
  else if ((97 <=? code c) && (code c <=? 102))%nat then Some (Z.of_nat (code c - 87))
  else if ((65 <=? code c) && (code c <=? 70))%nat then Some (Z.of_nat (code c - 55))
  else None.

Fixpoint readHex (s : string) (acc : Z) (n : nat) : Z * nat :=
  match s with
  | String c t =>
      match hexVal c with
      | Some d => readHex t (acc * 16 + d) (S n)
      | None => (acc, n)
      end
  | EmptyString => (acc, n)
  end.

(** [parseInt(s)] with no radix: white space, sign, an optional [0x] prefix,
    then the longest run of digits; [None] stands for [NaN]. *)
Definition parseIntStr (s : string) : option Z :=
  let (neg, s2) := readSign (trimStart s) in
  let '(v, n) :=
    if String.prefix "0x" s2 || String.prefix "0X" s2
    then readHex (drop 2 s2) 0 0
    else let '(v, n, _) := readDigits s2 0 0 in (v, n) in
  if (n =? 0)%nat then None else Some (if neg then (- v)%Z else v).

Definition int_num (o : option Z) : JsNum :=
  match o with
  | Some z => of_Z z
  | None => NaN
  end.

(** ** Loosely typed values

    What [response.json()] yields: JSON data.  An object is its list of
    properties, read by the first binding of a key. *)

Inductive JsValue : Type :=
| JsUndefined
| JsNull
| JsBool (b : bool)
| JsNumber (n : JsNum)
| JsString (s : string)
| JsArray (items : list JsValue)
| JsObject (props : list (string * JsValue)).

(** [ToBoolean]: the condition of [if], [!], [&&], [||] and [?:]. *)
Definition truthy (v : JsValue) : bool :=
  match v with
  | JsUndefined | JsNull => false
  | JsBool b => b
  | JsNumber n => truthy_num n
  | JsString s => negb (String.eqb s "")
  | JsArray _ | JsObject _ => true
  end.

(** [a || b] *)
Definition js_or (a b : JsValue) : JsValue := if truthy a then a else b.

Fixpoint lookup (k : string) (props : list (string * JsValue)) : JsValue :=
  match props with
  | [] => JsUndefined
  | (k', v) :: rest => if String.eqb k' k then v else lookup k rest
  end.

(** [v.k] for a value that is neither [null] nor [undefined]: the property of
    an object; [undefined] on a primitive or an array (none of the keys the
    program reads is a built-in property). *)
Definition field (v : JsValue) (k : string) : JsValue :=
  match v with
  | JsObject props => lookup k props
  | _ => JsUndefined
  end.

Definition nullish (v : JsValue) : bool :=
  match v with
  | JsUndefined | JsNull => true
  | _ => false
  end.

(** [v === 'text'] *)
Definition is_string (v : JsValue) (text : string) : bool :=
  match v with
  | JsString s => String.eqb s text
  | _ => false
  end.

(** ** Exceptions

    A [TypeError] is what reading a property of [null] or [undefined]
    throws (the message as V8 words it); a [WeatherError] is the object the
    service throws. *)

Inductive JsError : Type :=
| TypeError (message : string)
| WeatherError (code message : string).

Definition message_of (e : JsError) : string :=
  match e with
  | TypeError m => m
  | WeatherError _ m => m
  end.

Definition cannotRead (what key : string) : JsError :=
  TypeError ("Cannot read properties of " ++ what ++ " (reading '" ++ key ++ "')").

Definition typeName (v : JsValue) : string :=
  match v with
  | JsNull => "null"
  | _ => "undefined"
  end.

Inductive Res (A : Type) : Type :=
| Ok (a : A)
| Throw (e : JsError).

Arguments Ok {A} a.
Arguments Throw {A} e.

Definition bind {A B : Type} (m : Res A) (f : A -> Res B) : Res B :=
  match m with
  | Ok a => f a
  | Throw e => Throw e
  end.

Fixpoint mapM {A B : Type} (f : A -> Res B) (xs : list A) : Res (list B) :=
  match xs with
  | [] => Ok []
  | x :: rest =>
      bind (f x) (fun y => bind (mapM f rest) (fun ys => Ok (y :: ys)))
  end.

(** ** Conversion to a string

    [parseFloat] and [parseInt] first convert their argument to a string
    ([ToString]).  For an object this calls its [toString] method, and a
    value read from JSON holds no function: an object with an own key
    [toString] has a method that cannot be called, its [valueOf] gives no
    primitive either, and the conversion throws a [TypeError].  Every other
    object inherits [Object.prototype.toString].  An array joins the strings
    of its elements ([null] and [undefined] as the empty string), so it
    converts when each element does. *)

Definition hasOwn (k : string) (props : list (string * JsValue)) : bool :=
  existsb (fun p => String.eqb (fst p) k) props.

(** [ToString(v)] returns. *)
Fixpoint convertible (v : JsValue) : bool :=
  match v with
  | JsObject props => negb (hasOwn "toString" props)
  | JsArray items => forallb convertible items
  | _ => true
  end.

Definition cannotConvert : JsError :=
  TypeError "Cannot convert object to primitive value".

(** ** [parseFloat] and [parseInt] on values

    What is read from the string of a value that has one: a number prints
    as a decimal literal that reads back as itself; an array prints its
    elements separated by commas, so only its first element can be read;
    [true], [null], [undefined] and [[object Object]] start with no
    numeral. *)

Fixpoint readFloat (v : JsValue) : JsNum :=
  match v with
  | JsString s => parseFloatStr s
  | JsNumber n => n
  | JsArray (x :: _) => readFloat x
  | _ => NaN
  end.

(** [parseFloat(v)] *)
Definition parseFloat (v : JsValue) : Res JsNum :=
  if convertible v then Ok (readFloat v) else Throw cannotConvert.

(** The first significant decimal digit of the positive rational [a/b]. *)
Fixpoint leadingDigit (fuel : nat) (a b : Z) : Z :=
  match fuel with
  | O => (a / b)%Z
  | S f =>
      if (a <? b)%Z then leadingDigit f (a * 10)%Z b
      else if (10 * b <=? a)%Z then leadingDigit f a (b * 10)%Z
      else (a / b)%Z
  end.

(** [parseInt(n)] for a number: a number in [[1e-6, 1e21)] prints in plain
    notation and [parseInt] reads its integer part; outside it prints in
    exponent notation and [parseInt] reads the leading digit (taken here
    from the value itself). *)
Definition parseIntNum (n : JsNum) : JsNum :=
  match n with
  | Fin q =>
      let a := Z.abs (Qnum q) in
      let b := QDen q in
      if (a =? 0)%Z then of_Z 0
      else
        let d :=
          if (a * 10 ^ 6 <? b)%Z || (10 ^ 21 * b <=? a)%Z
          then leadingDigit (S (Z.to_nat (Z.log2 a + Z.log2 b))) a b
          else (a / b)%Z in
        of_Z (if (Qnum q <? 0)%Z then - d else d)
  | _ => NaN
  end.

Fixpoint readInt (v : JsValue) : JsNum :=
  match v with
  | JsString s => int_num (parseIntStr s)
  | JsNumber n => parseIntNum n
  | JsArray (x :: _) => readInt x
  | _ => NaN
  end.

(** [parseInt(v)] *)
Definition parseInt (v : JsValue) : Res JsNum :=
  if convertible v then Ok (readInt v) else Throw cannotConvert.

End Js.

Export Js.

Notation "a ||| b" := (js_or a b) (at level 50, left associativity).
Notation "x <- m ;; k" := (bind m (fun x => k))
  (at level 61, m at next level, right associativity).

(* ================================================================== *)
(** * Part II. The program *)
(* ================================================================== *)

(** ** [types/weather.ts] *)

(** [type FlightCategory = 'VFR' | 'MVFR' | 'IFR' | 'LIFR'] *)
Inductive FlightCategory : Type := VFR | MVFR | IFR | LIFR.

(** [interface CloudLayer].  The declared type of [type] is the six cover
    codes, but [parseClouds] stores whatever the record carries and casts, so
    the field holds a value. *)
Record CloudLayer : Type := {
  type : JsValue;
  altitude : option JsNum
}.

(** [interface MetarData], the fields the mapping fills. *)
Record MetarData : Type := {
  raw : JsValue;
  station : JsValue;
  observationTime : JsValue;
  temperature : option JsNum;
  dewpoint : option JsNum;
  windDirection : option JsNum;
  windSpeed : option JsNum;
  windGust : option JsNum;
  visibility : option JsNum;
  altimeter : option JsNum;
  clouds : list CloudLayer;
  weather : list JsValue;
  flightCategory : option FlightCategory
}.

(** [interface TurbulenceReport] and [interface IcingReport]: the
    intensities, each listed from the mildest to the worst. *)
Module Turbulence.
Inductive intensity : Type := LIGHT | MODERATE | SEVERE | EXTREME.
End Turbulence.

Module Icing.
Inductive intensity : Type := TRACE | LIGHT | MODERATE | SEVERE.
End Icing.

(** The object the raw-text branch of [getMetarByBounds] pushes:
    [{ raw, station }], cast to [MetarData]. *)
Module RawMetar.
Record t : Type := { raw : string; station : string }.
End RawMetar.

(** [interface StationInfo], the fields [getStationInfo] fills. *)
Record StationInfo : Type := {
  icao : JsValue;
  name : JsValue;
  latitude : option JsNum;
  longitude : option JsNum;
  elevation : option JsNum
}.

(** [interface PirepData], the fields the mapping fills.  The turbulence
    and icing reports are objects with the single field [intensity]. *)
Module Pirep.
Inductive urgency : Type := ROUTINE | URGENT.
Record t : Type := {
  raw : JsValue;
  observationTime : JsValue;
  reportType : urgency;
  aircraft : option JsValue;
  location : JsValue;
  altitude : option JsNum;
  remarks : option JsValue;
  turbulence : option Turbulence.intensity;
  icing : option Icing.intensity
}.
End Pirep.

(** [interface AirmetData] *)
Module Airmet.
Inductive hazard : Type :=
| IFR
| MOUNTAIN_OBSCURATION
| TURBULENCE
| ICING
| STRONG_SURFACE_WINDS
| LOW_LEVEL_WIND_SHEAR.
Record t : Type := {
  raw : JsValue;
  hazardType : hazard;
  validFrom : JsValue;
  validTo : JsValue;
  area : JsValue;
  description : JsValue
}.
End Airmet.

(** [interface TafForecast] and [interface TafData], the fields the
    mapping fills. *)
Module TafForecast.
Record t : Type := {
  from : JsValue;
  to : JsValue;
  changeType : option JsValue;
  windDirection : option JsNum;
  windSpeed : option JsNum;
  windGust : option JsNum;
  visibility : option JsNum;
  weather : list JsValue;
  clouds : list CloudLayer
}.
End TafForecast.

Module Taf.
Record t : Type := {
  raw : JsValue;
  station : JsValue;
  issueTime : JsValue;
  validFrom : JsValue;
  validTo : JsValue;
  forecasts : list TafForecast.t
}.
End Taf.

(** The object the raw-text branch of [getTafByBounds] pushes:
    [{ raw, station }], cast to [TafData]. *)
Module RawTaf.
Record t : Type := { raw : string; station : string }.
End RawTaf.

(** ** The ceiling loop

    Written identically in [AviationWeatherService.determineFlightCategory]
    and in [checkVfrMinimums]:
<<
    let ceiling: number | undefined;
    for (const cloud of clouds) {
      if ((cloud.type === 'BKN' || cloud.type === 'OVC') && cloud.altitude) {
        if (!ceiling || cloud.altitude < ceiling) { ceiling = cloud.altitude; }
      }
    }
>> *)

(** An optional number as a condition. *)
Definition truthy_opt (x : option JsNum) : bool :=
  match x with
  | Some n => truthy_num n
  | None => false
  end.

(** One iteration of the loop. *)
Definition ceilingStep (ceiling : option JsNum) (cloud : CloudLayer)
  : option JsNum :=
  if (is_string (type cloud) "BKN" || is_string (type cloud) "OVC")
     && truthy_opt (altitude cloud)
  then
    match altitude cloud, ceiling with
    | Some a, Some c =>
        if negb (truthy_num c) || js_lt a c then Some a else ceiling
    | Some a, None => Some a
    | None, _ => ceiling
    end
  else ceiling.

Definition lowestCeiling (clouds : list CloudLayer) : option JsNum :=
  fold_left ceilingStep clouds None.

(** ** [services/aviationWeather.ts]: class [AviationWeatherService] *)

Module Service.

(** [private parseVisibility(value: any): number | undefined] *)
Definition parseVisibility (value : JsValue) : Res (option JsNum) :=
  if negb (truthy value) then Ok None
  else
    match value with
    | JsString s =>
        (* Handle "10+" format *)
        if endsWith s "+" then
          Ok (Some (parseFloatStr (replaceFirst "+" "" s)))
        (* Handle "P6SM" format *)
        else if startsWith s "P" && endsWith s "SM" then
          Ok (Some (parseFloatStr (replaceFirst "SM" "" (replaceFirst "P" "" s))))
        else n <- parseFloat value ;; Ok (num_or_undefined n)
    | _ => n <- parseFloat value ;; Ok (num_or_undefined n)
    end.

(** The body of the arrow function of [parseClouds]; reading a property of
    a [null] or [undefined] entry throws, and so does [parseInt] on a base
    that has no string. *)
Definition parseCloud (cloud : JsValue) : Res CloudLayer :=
  if nullish cloud then Throw (cannotRead (typeName cloud) "cover")
  else
    altitude <- (if truthy (field cloud "base")
                 then n <- parseInt (field cloud "base") ;; Ok (Some n)
                 else Ok None) ;;
    Ok {|
      type := field cloud "cover" ||| field cloud "skyCover" ||| JsString "CLR";
      altitude := altitude
    |}.

(** [private parseClouds(clouds: any[]): CloudLayer[]] *)
Definition parseClouds (clouds : JsValue) : Res (list CloudLayer) :=
  match clouds with
  | JsArray items => mapM parseCloud items
  | _ => Ok []
  end.

(** [x && x < k] on an optional number. *)
Definition truthy_lt (x : option JsNum) (k : Q) : bool :=
  match x with
  | Some n => truthy_num n && js_lt n (Fin k)
  | None => false
  end.

(** [private determineFlightCategory(data: any): FlightCategory] *)
Definition determineFlightCategory (data : JsValue) : Res FlightCategory :=
  if nullish data then Throw (cannotRead (typeName data) "visib")
  else
    visibility <- parseVisibility (field data "visib") ;;
    clouds <- parseClouds (field data "clouds" ||| JsArray []) ;;
    (* Find lowest ceiling (BKN or OVC) *)
    let ceiling := lowestCeiling clouds in
    (* LIFR: Ceiling < 500ft OR Visibility < 1SM *)
    if truthy_lt ceiling 500 || truthy_lt visibility 1 then Ok LIFR
    (* IFR: Ceiling < 1000ft OR Visibility < 3SM *)
    else if truthy_lt ceiling 1000 || truthy_lt visibility 3 then Ok IFR
    (* MVFR: Ceiling < 3000ft OR Visibility < 5SM *)
    else if truthy_lt ceiling 3000 || truthy_lt visibility 5 then Ok MVFR
    (* VFR: Everything else *)
    else Ok VFR.

(** [private parseMetarResponse(data: any): MetarData] *)
Definition parseMetarResponse (data : JsValue) : Res MetarData :=
  if nullish data then Throw (cannotRead (typeName data) "rawOb")
  else
    temp <- parseFloat (field data "temp") ;;
    dewp <- parseFloat (field data "dewp") ;;
    wdir <- parseInt (field data "wdir") ;;
    wspd <- parseInt (field data "wspd") ;;
    wgst <- parseInt (field data "wgst") ;;
    visib <- parseVisibility (field data "visib") ;;
    altim <- parseFloat (field data "altim") ;;
    cl <- parseClouds
            (field data "clouds" ||| field data "skyCondition" ||| JsArray []) ;;
    fc <- determineFlightCategory data ;;
    Ok {|
      raw := field data "rawOb" ||| field data "raw_text" ||| JsString "";
      station := field data "icaoId" ||| field data "station" ||| JsString "";
      observationTime :=
        field data "obsTime" ||| field data "observation_time" ||| JsString "";
      temperature := num_or_undefined temp;
      dewpoint := num_or_undefined dewp;
      windDirection := num_or_undefined wdir;
      windSpeed := num_or_undefined wspd;
      windGust := num_or_undefined wgst;
      visibility := visib;
      altimeter := num_or_undefined altim;
      clouds := cl;
      weather := if truthy (field data "wxString")
                 then [field data "wxString"] else [];
      flightCategory := Some fc
    |}.

(** The [stations] argument of [getMetar] and [getTaf]: a string or an
    array of strings. *)
Inductive Stations : Type :=
| StationString (s : string)
| StationArray (l : list string).

(** "Clean up station list": the [ids] parameter of the request. *)
Definition stationList (stations : Stations) : string :=
  match stations with
  | StationArray l => join "," (map (fun s => toUpperCase (trim s)) l)
  | StationString s =>
      (* Split by comma, trim each station, and rejoin *)
      join "," (map (fun s => toUpperCase (trim s)) (split_char "," s))
  end.

(** [getMetar], after the fetch: [data] is what [fetchWithTimeout] returned. *)
Definition getMetar (data : JsValue) : Res (list MetarData) :=
  match data with
  | JsArray items => mapM parseMetarResponse items
  | _ => Throw (WeatherError "INVALID_RESPONSE" "Expected array of METAR data")
  end.

(** [getStationInfo], after the fetch: [data] is what [fetchWithTimeout]
    returned for the query [ids=cleanStation]. *)
Definition getStationInfo (data : JsValue) (station : string) : Res StationInfo :=
  let cleanStation := toUpperCase (trim station) in
  match data with
  | JsArray (stationData :: _) =>
      (* Extract station info from METAR data *)
      if nullish stationData
      then Throw (cannotRead (typeName stationData) "icaoId")
      else
        lat <- parseFloat (field stationData "lat") ;;
        lon <- parseFloat (field stationData "lon") ;;
        elev <- (if truthy (field stationData "elev")
                 then n <- parseInt (field stationData "elev") ;; Ok (Some n)
                 else Ok None) ;;
        Ok {|
          icao := field stationData "icaoId" ||| JsString cleanStation;
          name := field stationData "name" ||| JsString cleanStation;
          latitude := num_or_undefined lat;
          longitude := num_or_undefined lon;
          elevation := elev
        |}
  | _ =>
      (* !Array.isArray(data) || data.length === 0 *)
      Throw (WeatherError "STATION_NOT_FOUND"
               ("Station " ++ cleanStation ++ " not found"))
  end.

(** [private parseTurbulenceIntensity(value: string)] *)
Definition parseTurbulenceIntensity (value : string) : Turbulence.intensity :=
  let upper := toUpperCase value in
  if includes upper "EXTREME" then Turbulence.EXTREME
  else if includes upper "SEVERE" then Turbulence.SEVERE
  else if includes upper "MODERATE" then Turbulence.MODERATE
  else Turbulence.LIGHT.

(** [private parseIcingIntensity(value: string)] *)
Definition parseIcingIntensity (value : string) : Icing.intensity :=
  let upper := toUpperCase value in
  if includes upper "SEVERE" then Icing.SEVERE
  else if includes upper "MODERATE" then Icing.MODERATE
  else if includes upper "TRACE" then Icing.TRACE
  else Icing.LIGHT.

(** [parts[0].match(/^[A-Z]{4}$/)]: the match object's element [0], or
    [null]; calling [match] on [undefined] throws. *)
Definition matchStation (part : option string) : Res (option string) :=
  match part with
  | Some s => Ok (if test (times 4 upper) s then Some s else None)
  | None => Throw (cannotRead "undefined" "match")
  end.

(** The loop of the raw-text branch of [getMetarByBounds]; [results] is the
    array the loop pushes to. *)
Fixpoint scanLines (lines : list string) (results : list RawMetar.t)
  : Res (list RawMetar.t) :=
  match lines with
  | [] => Ok results
  | line :: rest =>
      if truthy_str (trim line) then
        (* Extract station ID from the raw METAR *)
        let parts := split_char " " (trim line) in
        stationMatch <- matchStation (nth_error parts 0) ;;
        match stationMatch with
        | Some m =>
            (* Create a minimal METAR object with just raw text and station *)
            scanLines rest
              (results ++ [{| RawMetar.raw := trim line; RawMetar.station := m |}])
        | None => scanLines rest results
        end
      else scanLines rest results
  end.

(** [getMetarByBounds], the branch [typeof data === 'string']: the bbox
    endpoint returned raw METAR text. *)
Definition getMetarByBounds_text (data : string) : Res (list RawMetar.t) :=
  let lines :=
    filter (fun line => truthy_str (trim line)) (split_char "010" data) in
  scanLines lines [].

(** [/^(TAF\s+)?[A-Z]{4}\s+\d{6}Z/]: what a line that starts a forecast
    begins with, and the pattern itself, anchored at the start only. *)
Definition tafHeadRe : Re :=
  Seq (opt (Seq (word "TAF") (plus (Chr isWhitespace))))
    (Seq (times 4 upper)
       (Seq (plus (Chr isWhitespace)) (Seq (times 6 digit) (lit "Z")))).

Definition tafStartRe : Re := Seq tafHeadRe (Star anyChar).

(** [tafText.match(/^(TAF\s+)?([A-Z]{4})/)]: the second group of the
    match, if any.  When the text begins with TAF and white space, the
    group is what follows that white space (without the prefix the fourth
    character would have to be a letter, and it is white space). *)
Definition tafStation (tafText : string) : option string :=
  let body :=
    if startsWith tafText "TAF"
       && match drop 3 tafText with
          | String c _ => isWhitespace c
          | EmptyString => false
          end
    then trimStart (drop 3 tafText)
    else tafText in
  if test (times 4 upper) (js_substring 0 4 body)
  then Some (js_substring 0 4 body)
  else None.

(** "Process previous TAF if exists": the lines accumulated in
    [currentTaf] become one record. *)
Definition flushTaf (currentTaf : list string) (results : list RawTaf.t)
  : list RawTaf.t :=
  if (0 <? List.length currentTaf)%nat then
    let tafText := join " " currentTaf in
    match tafStation tafText with
    | Some st =>
        List.app results [{| RawTaf.raw := tafText; RawTaf.station := st |}]
    | None => results
    end
  else results.

(** The loop of the raw-text branch of [getTafByBounds], followed by
    "Process last TAF". *)
Fixpoint scanTafLines (lines : list string) (currentTaf : list string)
         (results : list RawTaf.t) : list RawTaf.t :=
  match lines with
  | [] => flushTaf currentTaf results
  | line :: rest =>
      if truthy_str (trim line) then
        (* TAFs start with "TAF" or station code *)
        if test tafStartRe line then
          (* Process previous TAF if exists, start new TAF *)
          scanTafLines rest [trim line] (flushTaf currentTaf results)
        else if (0 <? List.length currentTaf)%nat then
          (* Continue current TAF *)
          scanTafLines rest (List.app currentTaf [trim line]) results
        else scanTafLines rest currentTaf results
      else scanTafLines rest currentTaf results
  end.

(** [getTafByBounds], the branch [typeof data === 'string']. *)
Definition getTafByBounds_text (data : string) : list RawTaf.t :=
  let lines :=
    filter (fun line => truthy_str (trim line)) (split_char "010" data) in
  scanTafLines lines [] [].

(** [v || undefined] *)
Definition optional (v : JsValue) : option JsValue :=
  if truthy v then Some v else None.

(** Calling a method that takes [value: string] and starts with
    [value.toUpperCase()] on a value of any type: anything but a string has
    no such method. *)
Definition onString {A : Type} (method : string -> A) (value : JsValue) : Res A :=
  match value with
  | JsString s => Ok (method s)
  | JsUndefined | JsNull => Throw (cannotRead (typeName value) "toUpperCase")
  | _ => Throw (TypeError "value.toUpperCase is not a function")
  end.

(** [private parseHazardType(value: string)] *)
Definition parseHazardType (value : string) : Airmet.hazard :=
  let upper := toUpperCase value in
  if includes upper "IFR" then Airmet.IFR
  else if includes upper "MOUNTAIN" || includes upper "MTN"
       then Airmet.MOUNTAIN_OBSCURATION
  else if includes upper "TURB" then Airmet.TURBULENCE
  else if includes upper "ICE" || includes upper "ICING" then Airmet.ICING
  else if includes upper "WIND" && includes upper "SHEAR"
       then Airmet.LOW_LEVEL_WIND_SHEAR
  else if includes upper "WIND" then Airmet.STRONG_SURFACE_WINDS
  else Airmet.IFR (* Default *).

(** [private parseAirmetResponse(data: any): AirmetData] *)
Definition parseAirmetResponse (data : JsValue) : Res Airmet.t :=
  if nullish data then Throw (cannotRead (typeName data) "rawAirmet")
  else
    hazardType <- onString parseHazardType
                    (field data "hazard" ||| field data "hazardType") ;;
    Ok {|
      Airmet.raw := field data "rawAirmet" ||| field data "raw_text" ||| JsString "";
      Airmet.hazardType := hazardType;
      Airmet.validFrom := field data "validTimeFrom" ||| JsString "";
      Airmet.validTo := field data "validTimeTo" ||| JsString "";
      Airmet.area := field data "region" ||| JsString "";
      Airmet.description := field data "text" ||| JsString ""
    |}.

(** [private parsePirepResponse(data: any): PirepData] *)
Definition parsePirepResponse (data : JsValue) : Res Pirep.t :=
  if nullish data then Throw (cannotRead (typeName data) "rawOb")
  else
    altitude <- (if truthy (field data "altitude")
                 then n <- parseInt (field data "altitude") ;; Ok (Some n)
                 else Ok None) ;;
    (* Parse turbulence if present *)
    turbulence <-
      (if truthy (field data "turbulence")
       then t <- onString parseTurbulenceIntensity (field data "turbulence") ;;
            Ok (Some t)
       else Ok None) ;;
    (* Parse icing if present *)
    icing <-
      (if truthy (field data "icing")
       then i <- onString parseIcingIntensity (field data "icing") ;;
            Ok (Some i)
       else Ok None) ;;
    Ok {|
      Pirep.raw := field data "rawOb" ||| field data "raw_text" ||| JsString "";
      Pirep.observationTime :=
        field data "obsTime" ||| field data "observation_time" ||| JsString "";
      Pirep.reportType :=
        if is_string (field data "urgency") "URGENT"
        then Pirep.URGENT else Pirep.ROUTINE;
      Pirep.aircraft := optional (field data "acType");
      Pirep.location := field data "location" ||| JsString "";
      Pirep.altitude := altitude;
      Pirep.remarks := optional (field data "remarks");
      Pirep.turbulence := turbulence;
      Pirep.icing := icing
    |}.

(** The arrow function of [parseTafResponse], applied to one forecast. *)
Definition parseTafForecast (fc : JsValue) : Res TafForecast.t :=
  if nullish fc then Throw (cannotRead (typeName fc) "timeFrom")
  else
    wdir <- parseInt (field fc "wdir") ;;
    wspd <- parseInt (field fc "wspd") ;;
    wgst <- parseInt (field fc "wgst") ;;
    visib <- parseVisibility (field fc "visib") ;;
    cl <- parseClouds
            (field fc "clouds" ||| field fc "skyCondition" ||| JsArray []) ;;
    Ok {|
      TafForecast.from := field fc "timeFrom" ||| field fc "fcstTimeFrom" ||| JsString "";
      TafForecast.to := field fc "timeTo" ||| field fc "fcstTimeTo" ||| JsString "";
      TafForecast.changeType := optional (field fc "changeIndicator");
      TafForecast.windDirection := num_or_undefined wdir;
      TafForecast.windSpeed := num_or_undefined wspd;
      TafForecast.windGust := num_or_undefined wgst;
      TafForecast.visibility := visib;
      TafForecast.weather := if truthy (field fc "wxString")
                             then [field fc "wxString"] else [];
      TafForecast.clouds := cl
    |}.

(** [private parseTafResponse(data: any): TafData]; [forecasts.map] exists
    on an array only. *)
Definition parseTafResponse (data : JsValue) : Res Taf.t :=
  if nullish data then Throw (cannotRead (typeName data) "rawTaf")
  else
    forecasts <-
      (if truthy (field data "forecast" ||| field data "fcsts") then
         match field data "forecast" ||| field data "fcsts" with
         | JsArray items => mapM parseTafForecast items
         | _ => Throw (TypeError "forecasts.map is not a function")
         end
       else Ok []) ;;
    Ok {|
      Taf.raw := field data "rawTaf" ||| field data "raw_text" ||| JsString "";
      Taf.station := field data "icaoId" ||| field data "station" ||| JsString "";
      Taf.issueTime := field data "issueTime" ||| JsString "";
      Taf.validFrom := field data "validTimeFrom" ||| JsString "";
      Taf.validTo := field data "validTimeTo" ||| JsString "";
      Taf.forecasts := forecasts
    |}.

(** [getTaf], [getPireps] and [getAirmets], after the fetch. *)
Definition getTaf (data : JsValue) : Res (list Taf.t) :=
  match data with
  | JsArray items => mapM parseTafResponse items
  | _ => Throw (WeatherError "INVALID_RESPONSE" "Expected array of TAF data")
  end.

Definition getPireps (data : JsValue) : Res (list Pirep.t) :=
  match data with
  | JsArray items => mapM parsePirepResponse items
  | _ => Throw (WeatherError "INVALID_RESPONSE" "Expected array of PIREP data")
  end.

Definition getAirmets (data : JsValue) : Res (list Airmet.t) :=
  match data with
  | JsArray items => mapM parseAirmetResponse items
  | _ => Throw (WeatherError "INVALID_RESPONSE" "Expected array of AIRMET data")
  end.

End Service.

(** ** The analysis tools *)

Module Analysis.

(** [ceiling !== undefined && ceiling < k] *)
Definition defined_lt (x : option JsNum) (k : Q) : bool :=
  match x with
  | Some n => js_lt n (Fin k)
  | None => false
  end.

(** [function determineFlightCategory(ceiling?: number, visibility?: number)] *)
Definition determineFlightCategory (ceiling visibility : option JsNum)
  : FlightCategory :=
  (* LIFR: Ceiling < 500ft OR Visibility < 1SM *)
  if defined_lt ceiling 500 || defined_lt visibility 1 then LIFR
  (* IFR: Ceiling < 1000ft OR Visibility < 3SM *)
  else if defined_lt ceiling 1000 || defined_lt visibility 3 then IFR
  (* MVFR: Ceiling < 3000ft OR Visibility < 5SM *)
  else if defined_lt ceiling 3000 || defined_lt visibility 5 then MVFR
  (* VFR: Everything else *)
  else VFR.

(** *** [function decodeMetar(raw: string): string]

    The cursor [index] into [parts] is represented by the tokens from
    [index] on ([parts.slice(index)]): [parts[index]] is their head
    ([undefined] when there is none), [index++] drops it, and
    [index < parts.length] says there is one. *)

Definition tokenAt (rest : list string) : option string := hd_error rest.

(** [`${parts[index]}`] *)
Definition showToken (tok : option string) : string :=
  match tok with
  | Some s => s
  | None => "undefined"
  end.

Definition truthy_tok (tok : option string) : bool :=
  match tok with
  | Some s => truthy_str s
  | None => false
  end.

Definition tok_is (tok : option string) (text : string) : bool :=
  match tok with
  | Some s => String.eqb s text
  | None => false
  end.

(** [tok.match(r)] as a condition; calling it on [undefined] throws. *)
Definition js_match (r : Re) (tok : option string) : Res bool :=
  match tok with
  | Some s => Ok (test r s)
  | None => Throw (cannotRead "undefined" "match")
  end.

(** [a && b], [b] evaluated only when [a] holds. *)
Definition and_then (a : bool) (b : Res bool) : Res bool :=
  if a then b else Ok false.

(** [tok.replace(pat, rep)]; calling it on [undefined] throws. *)
Definition js_replace (pat rep : string) (tok : option string) : Res string :=
  match tok with
  | Some s => Ok (replaceFirst pat rep s)
  | None => Throw (cannotRead "undefined" "replace")
  end.

(** [tok.substring(a, b)]; calling it on [undefined] throws. *)
Definition js_substring_of (a b : nat) (tok : option string) : Res string :=
  match tok with
  | Some s => Ok (js_substring a b s)
  | None => Throw (cannotRead "undefined" "substring")
  end.

(** The patterns, in the order of the source. *)
Definition stationRe : Re := times 4 upper.                 (* /^[A-Z]{4}$/ *)
Definition timeRe : Re := search (Seq (times 6 digit) (lit "Z")).  (* /\d{6}Z/ *)
Definition windRe : Re :=                       (* /\d{3}\d{2}(G\d{2})?KT/ *)
  search (Seq (times 3 digit) (Seq (times 2 digit)
            (Seq (opt (Seq (lit "G") (times 2 digit))) (word "KT")))).
Definition visWholeRe : Re := Seq (plus digit) (word "SM").      (* /^\d+SM$/ *)
Definition visFractionRe : Re :=                           (* /^M?\d+\/\d+SM$/ *)
  Seq (opt (lit "M")) (Seq (plus digit) (Seq (lit "/")
    (Seq (plus digit) (word "SM")))).
Definition weatherRe : Re :=                     (* /^(\+|-)?(VC)?[A-Z]{2,6}$/ *)
  Seq (opt (Alt (lit "+") (lit "-"))) (Seq (opt (word "VC"))
    (Seq (times 2 upper) (upto 4 upper))).
Definition cloudRe : Re :=      (* /^(CLR|SKC|FEW|SCT|BKN|OVC)\d{3}(CB|TCU)?$/ *)
  Seq (Alt (word "CLR") (Alt (word "SKC") (Alt (word "FEW")
        (Alt (word "SCT") (Alt (word "BKN") (word "OVC"))))))
    (Seq (times 3 digit) (opt (Alt (word "CB") (word "TCU")))).
Definition tempRe : Re :=                              (* /^M?\d{2}\/M?\d{2}$/ *)
  Seq (opt (lit "M")) (Seq (times 2 digit) (Seq (lit "/")
    (Seq (opt (lit "M")) (times 2 digit)))).
Definition altimeterRe : Re := Seq (lit "A") (times 4 digit).   (* /^A\d{4}$/ *)
Definition qnhRe : Re := Seq (lit "Q") (times 4 digit).         (* /^Q\d{4}$/ *)

(** [/G(\d{2})/] on a string: the group of the first match, if any. *)
Fixpoint findGust (s : string) : option string :=
  match s with
  | EmptyString => None
  | String c t =>
      if Ascii.eqb c "G" && test (times 2 digit) (js_substring 0 2 t)
      then Some (js_substring 0 2 t)
      else findGust t
  end.

(** [wind.match(/G(\d{2})/)]; calling it on [undefined] throws. *)
Definition matchGust (tok : option string) : Res (option string) :=
  match tok with
  | Some s => Ok (findGust s)
  | None => Throw (cannotRead "undefined" "match")
  end.

(** [part.replace(/^(\+|-)?VC?/, '')] *)
Definition stripIntensityVicinity (part : string) : string :=
  let t := match part with
           | String "+" t | String "-" t => t
           | _ => part
           end in
  match t with
  | String "V" (String "C" u) => u
  | String "V" u => u
  | _ => part
  end.

Definition weatherCodes : list (string * string) :=
  [("RA", "Rain"); ("SN", "Snow"); ("BR", "Mist"); ("FG", "Fog");
   ("HZ", "Haze"); ("TS", "Thunderstorm"); ("SH", "Showers");
   ("FZ", "Freezing"); ("DZ", "Drizzle")].

Definition typeMap : list (string * string) :=
  [("CLR", "Clear"); ("SKC", "Sky Clear"); ("FEW", "Few");
   ("SCT", "Scattered"); ("BKN", "Broken"); ("OVC", "Overcast")].

(** [`${typeMap[type]}`] *)
Fixpoint showEntry (table : list (string * string)) (key : string) : string :=
  match table with
  | [] => "undefined"
  | (k, v) :: rest => if String.eqb k key then v else showEntry rest key
  end.

(** The state of the scan: the text decoded so far and the cursor. *)
Definition Scan : Type := (string * list string)%type.

(** Type *)
Definition decodeType (st : Scan) : Scan :=
  let '(decoded, rest) := st in
  if tok_is (tokenAt rest) "METAR" || tok_is (tokenAt rest) "SPECI" then
    (decoded ++ "Type: "
       ++ (if tok_is (tokenAt rest) "SPECI"
           then "Special observation" else "Routine observation") ++ nl,
     tl rest)
  else st.

(** Station *)
Definition decodeStation (st : Scan) : Res Scan :=
  let '(decoded, rest) := st in
  m <- and_then (truthy_tok (tokenAt rest)) (js_match stationRe (tokenAt rest)) ;;
  if m then
    Ok (decoded ++ "Station: " ++ showToken (tokenAt rest) ++ nl, tl rest)
  else Ok st.

(** Time *)
Definition decodeTime (st : Scan) : Res Scan :=
  let '(decoded, rest) := st in
  m <- and_then (truthy_tok (tokenAt rest)) (js_match timeRe (tokenAt rest)) ;;
  if m then
    let time := tokenAt rest in
    day <- js_substring_of 0 2 time ;;
    hour <- js_substring_of 2 4 time ;;
    minute <- js_substring_of 4 6 time ;;
    Ok (decoded ++ "Observation Time: Day " ++ day ++ ", " ++ hour ++ ":"
          ++ minute ++ " UTC" ++ nl,
        tl rest)
  else Ok st.

(** Wind *)
Definition decodeWind (st : Scan) : Res Scan :=
  let '(decoded, rest) := st in
  m <- and_then (truthy_tok (tokenAt rest)) (js_match windRe (tokenAt rest)) ;;
  if m then
    let wind := tokenAt rest in
    dir <- js_substring_of 0 3 wind ;;
    speed <- js_substring_of 3 5 wind ;;
    gust <- matchGust wind ;;
    let decoded :=
      decoded ++ "Wind: "
        ++ (if String.eqb dir "VRB" then "Variable" else dir ++ "°")
        ++ " at " ++ showInt (parseIntStr speed) ++ " knots" in
    let decoded :=
      match gust with
      | Some g => decoded ++ " gusting to " ++ showInt (parseIntStr g) ++ " knots"
      | None => decoded
      end in
    Ok (decoded ++ nl, tl rest)
  else Ok st.

(** Visibility: [while (index < parts.length)], skipping tokens up to the
    first visibility group. *)
Fixpoint decodeVisibility (decoded : string) (rest : list string) : Scan :=
  match rest with
  | [] => (decoded, [])
  | part :: rest' =>
      if test visWholeRe part || test visFractionRe part
         || String.eqb part "CAVOK"
      then
        (if String.eqb part "CAVOK" then
           decoded
             ++ "Visibility: Ceiling and Visibility OK (>10SM, no clouds below 5000ft)"
             ++ nl
         else decoded ++ "Visibility: " ++ part ++ nl,
         rest')
      else decodeVisibility decoded rest'
  end.

(** Weather phenomena: the loop collecting [weather]. *)
Fixpoint weatherLoop (weather : list string) (rest : list string)
  : list string * list string :=
  match rest with
  | [] => (weather, [])
  | part :: rest' =>
      if test weatherRe part then
        let description :=
          (if startsWith part "+" then "Heavy " else "")
          ++ (if startsWith part "-" then "Light " else "")
          ++ (if includes part "VC" then "In vicinity " else "") in
        (* Decode weather phenomena *)
        let code := stripIntensityVicinity part in
        let description :=
          fold_left
            (fun d kv => if includes code (fst kv) then d ++ snd kv ++ " " else d)
            weatherCodes description in
        weatherLoop
          (if truthy_str description then weather ++ [trim description]
           else weather)
          rest'
      else (weather, rest)
  end.

(** Clouds: the loop collecting [clouds]. *)
Fixpoint cloudLoop (clouds : list string) (rest : list string)
  : list string * list string :=
  match rest with
  | [] => (clouds, [])
  | part :: rest' =>
      if test cloudRe part then
        let type := js_substring 0 3 part in
        let height :=
          option_map (fun z => (z * 100)%Z) (parseIntStr (js_substring 3 6 part)) in
        let cb :=
          if includes part "CB" then " Cumulonimbus"
          else if includes part "TCU" then " Towering Cumulus"
          else "" in
        cloudLoop
          (clouds ++ [showEntry typeMap type ++ " at " ++ showInt height
                        ++ " ft" ++ cb])
          rest'
      else if String.eqb part "CLR" || String.eqb part "SKC" then
        cloudLoop (clouds ++ ["Clear skies"]) rest'
      else (clouds, rest)
  end.

(** Temperature/Dewpoint *)
Definition decodeTemperature (st : Scan) : Res Scan :=
  let '(decoded, rest) := st in
  match rest with
  | part :: rest' =>
      if test tempRe part then
        let temps := split_char "/" part in
        temp <- js_replace "M" "-" (nth_error temps 0) ;;
        dewpoint <- js_replace "M" "-" (nth_error temps 1) ;;
        Ok (decoded ++ "Temperature: " ++ temp ++ "°C, Dewpoint: " ++ dewpoint
              ++ "°C" ++ nl,
            rest')
      else Ok st
  | [] => Ok st
  end.

(** Altimeter *)
Definition decodeAltimeter (st : Scan) : Scan :=
  let '(decoded, rest) := st in
  match rest with
  | alt :: rest' =>
      if test altimeterRe alt || test qnhRe alt then
        if startsWith alt "A" then
          (decoded ++ "Altimeter: " ++ showHundredths (parseIntStr (drop 1 alt))
             ++ " inHg" ++ nl,
           rest')
        else
          (decoded ++ "QNH: " ++ showInt (parseIntStr (drop 1 alt)) ++ " hPa" ++ nl,
           rest')
      else st
  | [] => st
  end.

(** [parts.slice(parts.indexOf('RMK') + 1)], when ['RMK'] occurs. *)
Fixpoint afterRMK (parts : list string) : option (list string) :=
  match parts with
  | [] => None
  | p :: rest => if String.eqb p "RMK" then Some rest else afterRMK rest
  end.

Definition decodeMetar (raw : string) : Res string :=
  (* Basic METAR decoder - this is simplified *)
  let parts := split_ws (trim raw) in
  let decoded := "Decoded METAR:" ++ nl ++ nl in
  let st := decodeType (decoded, parts) in
  st <- decodeStation st ;;
  st <- decodeTime st ;;
  st <- decodeWind st ;;
  let '(decoded, rest) := decodeVisibility (fst st) (snd st) in
  let '(weather, rest) := weatherLoop [] rest in
  let decoded :=
    if (0 <? List.length weather)%nat
    then decoded ++ "Weather: " ++ join ", " weather ++ nl else decoded in
  let '(clouds, rest) := cloudLoop [] rest in
  let decoded :=
    if (0 <? List.length clouds)%nat
    then decoded ++ "Clouds: " ++ join ", " clouds ++ nl else decoded in
  st <- decodeTemperature (decoded, rest) ;;
  let '(decoded, _) := decodeAltimeter st in
  (* Remarks *)
  match afterRMK parts with
  | Some remarks => Ok (decoded ++ "Remarks: " ++ join " " remarks ++ nl)
  | None => Ok decoded
  end.

(** The result of a tool call: the text of its single content item and
    the [isError] flag. *)
Record ToolResult : Type := { text : string; isError : bool }.

(** The handler of the [decode-metar] tool. *)
Definition decodeMetarTool (metar : string) : ToolResult :=
  match decodeMetar metar with
  | Ok decoded => {| text := decoded; isError := false |}
  | Throw error =>
      {| text := "Error decoding METAR: " ++ message_of error; isError := true |}
  end.

(** *** [function checkVfrMinimums(metar, minCeiling, minVisibility)]

    The issue messages interpolate numbers ([`${ceiling}`]); how the runtime
    prints a number is taken as a parameter.  [metar.clouds] is always an
    array on an observation the mapping produced, so the guard
    [if (metar.clouds)] holds. *)

Module VfrCheck.
Record t : Type := { meets : bool; ceiling : option JsNum; issues : list string }.
End VfrCheck.

Section CheckVfrMinimums.

Variable numberToString : JsNum -> string.

(** [`${x}`] for an optional number. *)
Definition showOptional (x : option JsNum) : string :=
  match x with
  | Some n => numberToString n
  | None => "undefined"
  end.

Definition checkVfrMinimums (metar : MetarData) (minCeiling minVisibility : JsNum)
  : VfrCheck.t :=
  (* Find the ceiling *)
  let ceiling := lowestCeiling (clouds metar) in
  (* Check ceiling *)
  let issues :=
    match ceiling with
    | Some c =>
        if truthy_num c && js_lt c minCeiling then
          ["Ceiling " ++ showOptional ceiling ++ " ft is below minimum "
             ++ numberToString minCeiling ++ " ft"]
        else []
    | None => []
    end in
  (* Check visibility *)
  let issues :=
    match visibility metar with
    | Some v =>
        if truthy_num v && js_lt v minVisibility then
          List.app issues
            ["Visibility " ++ showOptional (visibility metar)
               ++ " SM is below minimum "
               ++ numberToString minVisibility ++ " SM"]
        else issues
    | None => issues
    end in
  {| VfrCheck.meets := (List.length issues =? 0)%nat;
     VfrCheck.ceiling := ceiling;
     VfrCheck.issues := issues |}.

End CheckVfrMinimums.

End Analysis.

(* ================================================================== *)
(** * Part III. Specification-level notions *)
(* ================================================================== *)

Module Spec.

(** "x is defined and x < k" *)
Definition below (x : option JsNum) (k : Q) : Prop :=
  exists n, x = Some n /\ js_lt n (Fin k) = true.

(** The order VFR > MVFR > IFR > LIFR, as a rank: larger is better. *)
Definition rank (c : FlightCategory) : nat :=
  match c with
  | LIFR => 0
  | IFR => 1
  | MVFR => 2
  | VFR => 3
  end.


(** The decision of the class method [determineFlightCategory], as a
    function of the ceiling and the visibility it computed. *)
Definition truthyCategory (ceiling visibility : option JsNum) : FlightCategory :=
  if Service.truthy_lt ceiling 500 || Service.truthy_lt visibility 1 then LIFR
  else if Service.truthy_lt ceiling 1000 || Service.truthy_lt visibility 3 then IFR
  else if Service.truthy_lt ceiling 3000 || Service.truthy_lt visibility 5 then MVFR
  else VFR.

(** A character occurs in a string. *)
Fixpoint has (c : ascii) (s : string) : bool :=
  match s with
  | EmptyString => false
  | String d t => Ascii.eqb d c || has c t
  end.

(** What the mapping stores for one raw cloud entry. *)
Definition layerOf (entry : JsValue) : CloudLayer := {|
  type :=
    if truthy (field entry "cover") then field entry "cover"
    else if truthy (field entry "skyCover") then field entry "skyCover"
    else JsString "CLR";
  altitude :=
    if truthy (field entry "base") then Some (readInt (field entry "base"))
    else None
|}.

(** A record matches a station identifier when its [icaoId] is the
    identifier, trimmed and in upper case. *)
Definition matchesStation (stationId : string) (record : JsValue) : bool :=
  is_string (field record "icaoId") (toUpperCase (trim stationId)).

(** The failure [STATION_NOT_FOUND]. *)
Definition stationNotFound (r : Res StationInfo) : Prop :=
  exists message, r = Throw (WeatherError "STATION_NOT_FOUND" message).

(** The intensity tokens and their severity. *)
Definition turbulenceToken (i : Turbulence.intensity) : string :=
  match i with
  | Turbulence.LIGHT => "LIGHT"
  | Turbulence.MODERATE => "MODERATE"
  | Turbulence.SEVERE => "SEVERE"
  | Turbulence.EXTREME => "EXTREME"
  end.

Definition turbulenceRank (i : Turbulence.intensity) : nat :=
  match i with
  | Turbulence.LIGHT => 0
  | Turbulence.MODERATE => 1
  | Turbulence.SEVERE => 2
  | Turbulence.EXTREME => 3
  end.

Definition icingToken (i : Icing.intensity) : string :=
  match i with
  | Icing.TRACE => "TRACE"
  | Icing.LIGHT => "LIGHT"
  | Icing.MODERATE => "MODERATE"
  | Icing.SEVERE => "SEVERE"
  end.

Definition icingRank (i : Icing.intensity) : nat :=
  match i with
  | Icing.TRACE => 0
  | Icing.LIGHT => 1
  | Icing.MODERATE => 2
  | Icing.SEVERE => 3
  end.

(** The part of a string before the first occurrence of a character. *)
Fixpoint upTo (sep : ascii) (s : string) : string :=
  match s with
  | EmptyString => EmptyString
  | String c t => if Ascii.eqb c sep then EmptyString else String c (upTo sep t)
  end.

(** What one line of raw text contributes: one record when it is not blank
    and the part of the trimmed line before its first space is four upper
    case letters, none otherwise. *)
Definition recordOfLine (line : string) : list RawMetar.t :=
  let t := trim line in
  if truthy_str t && test (times 4 upper) (upTo " " t)
  then [{| RawMetar.raw := t; RawMetar.station := upTo " " t |}]
  else [].

(** The first white-space-delimited token of a line. *)
Definition firstWord (line : string) : option string :=
  hd_error (split_ws (trim line)).

(** [d'] is [d] with text appended. *)
Definition extends (d d' : string) : Prop := exists x, d' = d ++ x.

(** A layer the ceiling loop takes into account: broken or overcast, with
    a truthy altitude. *)
Definition isCeilingLayer (cloud : CloudLayer) : bool :=
  (is_string (type cloud) "BKN" || is_string (type cloud) "OVC")
  && truthy_opt (altitude cloud).

(** The values under the given keys of a record all have a string (a
    missing key gives [undefined], which has one). *)
Definition allConvertible (data : JsValue) (keys : list string) : Prop :=
  Forall (fun k => convertible (field data k) = true) keys.

(** A first record [getStationInfo] accepts: neither [null] nor
    [undefined], with a [lat], a [lon] and an [elev] that have a string. *)
Definition stationRecordWellFormed (record : JsValue) : Prop :=
  nullish record = false /\ allConvertible record ["lat"; "lon"; "elev"].

(** A cloud entry [parseClouds] accepts: neither [null] nor [undefined],
    with a base that has a string. *)
Definition cloudEntryWellFormed (entry : JsValue) : Prop :=
  nullish entry = false /\ convertible (field entry "base") = true.

(** A value [parseClouds] accepts: anything but an array with an entry it
    does not accept. *)
Definition cloudsWellFormed (v : JsValue) : Prop :=
  forall items, v = JsArray items -> Forall cloudEntryWellFormed items.

(** An observation record the mapping accepts. *)
Definition metarWellFormed (data : JsValue) : Prop :=
  nullish data = false /\
  allConvertible data ["temp"; "dewp"; "wdir"; "wspd"; "wgst"; "visib"; "altim"] /\
  cloudsWellFormed (field data "clouds" ||| field data "skyCondition" ||| JsArray []) /\
  cloudsWellFormed (field data "clouds" ||| JsArray []).

(** A forecast entry and a forecast record the mapping accepts. *)
Definition forecastWellFormed (fc : JsValue) : Prop :=
  nullish fc = false /\
  allConvertible fc ["wdir"; "wspd"; "wgst"; "visib"] /\
  cloudsWellFormed (field fc "clouds" ||| field fc "skyCondition" ||| JsArray []).

Definition tafWellFormed (data : JsValue) : Prop :=
  nullish data = false /\
  (truthy (field data "forecast" ||| field data "fcsts") = false
   \/ exists items,
        field data "forecast" ||| field data "fcsts" = JsArray items
        /\ Forall forecastWellFormed items).

(** A value that is falsy or a string. *)
Definition falsyOrString (v : JsValue) : Prop :=
  truthy v = false \/ exists s, v = JsString s.

(** A pilot report and an advisory record the mapping accepts. *)
Definition pirepWellFormed (data : JsValue) : Prop :=
  nullish data = false /\
  convertible (field data "altitude") = true /\
  falsyOrString (field data "turbulence") /\
  falsyOrString (field data "icing").

Definition airmetWellFormed (data : JsValue) : Prop :=
  nullish data = false /\
  exists s, field data "hazard" ||| field data "hazardType" = JsString s.

(** A token occurs in a value, letter case ignored. *)
Definition occurs (token value : string) : Prop :=
  includes (toUpperCase value) token = true.

(** A string that [trim] leaves alone, not empty and on one line. *)
Definition tidy (x : string) : Prop :=
  x <> "" /\ trimStart x = x /\ trimEnd x = x /\ has "010" x = false.

(** A line that the forecast segmenter appends to the forecast at hand:
    not blank and not the start of a forecast; its trimmed text. *)
Definition continuationOf (lines : list string) (piece : string) : Prop :=
  exists line,
    In line lines /\ truthy_str (trim line) = true /\
    test Service.tafStartRe line = false /\ piece = trim line.

(** The accumulated lines of a forecast: the trimmed start line, then
    trimmed continuation lines. *)
Definition tafGroup (lines : list string) (currentTaf : list string) : Prop :=
  exists line conts,
    currentTaf = trim line :: conts /\
    In line lines /\ test Service.tafStartRe line = true /\
    Forall (continuationOf lines) conts.

(** A forecast record of the given lines: the accumulated lines joined
    by spaces, with the station read off the start line. *)
Definition tafRecord (lines : list string) (r : RawTaf.t) : Prop :=
  exists line conts,
    In line lines /\ test Service.tafStartRe line = true /\
    Forall (continuationOf lines) conts /\
    RawTaf.raw r = join " " (trim line :: conts) /\
    Service.tafStation (trim line) = Some (RawTaf.station r).

End Spec.

(** ** Example records *)

Module Examples.

(** A record whose layers come under the fallback key [skyCondition]. *)
Definition skyConditionRecord : JsValue :=
  JsObject
    [("icaoId", JsString "KDEN");
     ("visib", JsString "10");
     ("skyCondition",
      JsArray [JsObject [("skyCover", JsString "OVC"); ("base", JsString "300")]])].


(** The record of the spec's round-trip example: layers FEW, SCT and BKN at
    5000, 10000 and 20000 ft, visibility ["10"]. *)
Definition kdenRecord : JsValue :=
  JsObject
    [("icaoId", JsString "KDEN"); ("temp", JsString "22");
     ("visib", JsString "10");
     ("clouds",
      JsArray
        [JsObject [("cover", JsString "FEW"); ("base", JsString "5000")];
         JsObject [("cover", JsString "SCT"); ("base", JsString "10000")];
         JsObject [("cover", JsString "BKN"); ("base", JsString "20000")]])].

End Examples.

(* ================================================================== *)
(** * Part IV. Properties *)
(* ================================================================== *)

Import Spec Examples.

(** ** Numbers *)

Lemma Qltb_lt (p q : Q) : Qltb p q = true <-> (p < q)%Q.
Proof. unfold Qltb, Qlt. apply Z.ltb_lt. Qed.

Lemma js_lt_Fin (p q : Q) : js_lt (Fin p) (Fin q) = true <-> (p < q)%Q.
Proof. apply Qltb_lt. Qed.

Lemma js_lt_trans (a b c : JsNum) :
  js_lt a b = true -> js_lt b c = true -> js_lt a c = true.
Proof.
  destruct a, b, c; simpl; try congruence.
  rewrite !Qltb_lt. apply Qlt_trans.
Qed.

Lemma js_lt_irrefl (a : JsNum) : js_lt a a = false.
Proof.
  destruct a; simpl; trivial.
  destruct (Qltb q q) eqn:E; trivial.
  apply Qltb_lt in E. exfalso. revert E. apply Qlt_irrefl.
Qed.

Lemma truthy_num_zero (q : Q) : (q == 0)%Q -> truthy_num (Fin q) = false.
Proof.
  unfold Qeq. simpl. intros H. rewrite Z.mul_1_r in H. now rewrite H.
Qed.

(** ** The flight-category classifier *)

Section Classifier.

Import Analysis.

Lemma defined_lt_below (x : option JsNum) (k : Q) :
  defined_lt x k = true <-> below x k.
Proof.
  unfold below. destruct x as [n|]; simpl.
  - split.
    + intros H. now exists n.
    + intros (m & E & H). now inversion E; subst.
  - split; [discriminate|]. intros (m & E & _). discriminate.
Qed.

Lemma defined_lt_mono (c' c : JsNum) (k : Q) :
  js_lt c' c = true ->
  defined_lt (Some c) k = true -> defined_lt (Some c') k = true.
Proof. simpl. apply js_lt_trans. Qed.

(** C1.  The classifier follows the decision table: LIFR exactly when the
    ceiling is defined and below 500 or the visibility is defined and below
    1; otherwise IFR exactly when below 1000 / 3; otherwise MVFR exactly when
    below 3000 / 5; otherwise VFR, in particular when both are undefined.
    The comparisons are strict: a value exactly at a threshold falls in the
    better category. *)
Theorem C1_classifier_decision_table (c v : option JsNum) :
  let lifr := below c 500 \/ below v 1 in
  let ifr := below c 1000 \/ below v 3 in
  let mvfr := below c 3000 \/ below v 5 in
  (determineFlightCategory c v = LIFR <-> lifr) /\
  (determineFlightCategory c v = IFR <-> ~ lifr /\ ifr) /\
  (determineFlightCategory c v = MVFR <-> ~ lifr /\ ~ ifr /\ mvfr) /\
  (determineFlightCategory c v = VFR <-> ~ lifr /\ ~ ifr /\ ~ mvfr) /\
  (forall k, ~ below (Some (Fin k)) k) /\
  determineFlightCategory None None = VFR /\
  determineFlightCategory (Some (Fin 500)) None = IFR /\
  determineFlightCategory (Some (Fin 1000)) None = MVFR /\
  determineFlightCategory (Some (Fin 3000)) None = VFR /\
  determineFlightCategory None (Some (Fin 1)) = IFR /\
  determineFlightCategory None (Some (Fin 3)) = MVFR /\
  determineFlightCategory None (Some (Fin 5)) = VFR.
Proof.
  cbv zeta.
  assert (S : forall k, ~ below (Some (Fin k)) k).
  { intros k (n & E & H). inversion E; subst.
    now rewrite js_lt_irrefl in H. }
  rewrite <- !defined_lt_below. unfold determineFlightCategory.
  destruct (defined_lt c 500), (defined_lt v 1), (defined_lt c 1000),
    (defined_lt v 3), (defined_lt c 3000), (defined_lt v 5);
    simpl; repeat apply conj; try reflexivity; try exact S;
    intuition congruence.
Qed.

(** C3.  The classifier is monotonic: decreasing the ceiling with the
    visibility fixed, or decreasing the visibility with the ceiling fixed,
    never yields a better category. *)
Theorem C3_classifier_monotonic (c c' v v' : JsNum) (oc ov : option JsNum) :
  (js_lt c' c = true ->
   rank (determineFlightCategory (Some c') ov)
   <= rank (determineFlightCategory (Some c) ov)) /\
  (js_lt v' v = true ->
   rank (determineFlightCategory oc (Some v'))
   <= rank (determineFlightCategory oc (Some v))).
Proof.
  split; intros H; unfold determineFlightCategory.
  - pose proof (@defined_lt_mono c' c 500 H) as M1.
    pose proof (@defined_lt_mono c' c 1000 H) as M2.
    pose proof (@defined_lt_mono c' c 3000 H) as M3.
    revert M1 M2 M3.
    destruct (defined_lt (Some c) 500), (defined_lt (Some c') 500),
      (defined_lt (Some c) 1000), (defined_lt (Some c') 1000),
      (defined_lt (Some c) 3000), (defined_lt (Some c') 3000),
      (defined_lt ov 1), (defined_lt ov 3), (defined_lt ov 5);
      simpl; intros M1 M2 M3; try lia;
      try (specialize (M1 eq_refl); discriminate);
      try (specialize (M2 eq_refl); discriminate);
      try (specialize (M3 eq_refl); discriminate).
  - pose proof (@defined_lt_mono v' v 1 H) as M1.
    pose proof (@defined_lt_mono v' v 3 H) as M2.
    pose proof (@defined_lt_mono v' v 5 H) as M3.
    revert M1 M2 M3.
    destruct (defined_lt (Some v) 1), (defined_lt (Some v') 1),
      (defined_lt (Some v) 3), (defined_lt (Some v') 3),
      (defined_lt (Some v) 5), (defined_lt (Some v') 5),
      (defined_lt oc 500), (defined_lt oc 1000), (defined_lt oc 3000);
      simpl; intros M1 M2 M3; try lia;
      try (specialize (M1 eq_refl); discriminate);
      try (specialize (M2 eq_refl); discriminate);
      try (specialize (M3 eq_refl); discriminate).
Qed.

Lemma C3_classifier_monotonic_witness :
  rank (determineFlightCategory (Some (Fin 400)) (Some (Fin 10)))
  <= rank (determineFlightCategory (Some (Fin 2500)) (Some (Fin 10))) /\
  rank (determineFlightCategory None (Some (Fin (1 # 2))))
  <= rank (determineFlightCategory None (Some (Fin 4))).
Proof.
  split.
  - apply (proj1 (C3_classifier_monotonic (Fin 2500) (Fin 400) NaN NaN
                    None (Some (Fin 10)))).
    reflexivity.
  - apply (proj2 (C3_classifier_monotonic NaN NaN (Fin 4) (Fin (1 # 2))
                    None None)).
    reflexivity.
Defined.

(** The examples of the spec: boundaries and worst-wins. *)
Lemma classifier_examples :
  determineFlightCategory None None = VFR /\
  determineFlightCategory (Some (Fin 500)) (Some (Fin 10)) = IFR /\
  determineFlightCategory (Some (Fin 499)) (Some (Fin 10)) = LIFR /\
  determineFlightCategory (Some (Fin 1000)) (Some (Fin 10)) = MVFR /\
  determineFlightCategory (Some (Fin 3000)) (Some (Fin 10)) = VFR /\
  determineFlightCategory None (Some (Fin 3)) = MVFR /\
  determineFlightCategory None (Some (Fin 1)) = IFR /\
  determineFlightCategory None (Some (Fin (99 # 100))) = LIFR /\
  determineFlightCategory (Some (Fin 300)) (Some (Fin 10)) = LIFR /\
  determineFlightCategory (Some (Fin 5000)) (Some (Fin (1 # 2))) = LIFR /\
  determineFlightCategory (Some (Fin 800)) (Some (Fin 4)) = IFR.
Proof. repeat split. Qed.

End Classifier.

(** ** The observation mapping *)

Section Mapping.

Import Service.


Lemma mapM_ok_iff {A B : Type} (f : A -> Res B) (xs : list A) :
  (exists ys, mapM f xs = Ok ys) <-> Forall (fun x => exists y, f x = Ok y) xs.
Proof.
  induction xs as [|x rest IH]; simpl.
  - split; [constructor | eauto].
  - split.
    + intros (ys & E). destruct (f x) as [y|e] eqn:Fx; [|discriminate].
      cbn [bind] in E. destruct (mapM f rest) as [zs|e] eqn:M; [|discriminate].
      constructor; [eauto | apply IH; eauto].
    + intros H. inversion H as [|? ? (y & Fx) Hrest]; subst.
      apply IH in Hrest. destruct Hrest as (zs & M).
      rewrite Fx, M. cbn [bind]. eauto.
Qed.

Lemma mapM_length {A B : Type} (f : A -> Res B) (xs : list A) :
  forall ys, mapM f xs = Ok ys -> List.length ys = List.length xs.
Proof.
  induction xs as [|x rest IH]; simpl; intros ys E.
  - now inversion E.
  - destruct (f x) as [y|e]; [|discriminate]. cbn [bind] in E.
    destruct (mapM f rest) as [zs|e]; [|discriminate]. cbn [bind] in E.
    inversion E; subst. simpl. now rewrite (IH zs eq_refl).
Qed.

(** *** Values that have a string *)

Lemma falsy_convertible (v : JsValue) :
  truthy v = false -> convertible v = true.
Proof. now destruct v. Qed.

Lemma parseFloat_ok_iff (v : JsValue) :
  (exists n, parseFloat v = Ok n) <-> convertible v = true.
Proof.
  unfold parseFloat. destruct (convertible v); split; eauto.
  - intros (n & E). discriminate E.
  - discriminate.
Qed.

Lemma parseInt_ok_iff (v : JsValue) :
  (exists n, parseInt v = Ok n) <-> convertible v = true.
Proof.
  unfold parseInt. destruct (convertible v); split; eauto.
  - intros (n & E). discriminate E.
  - discriminate.
Qed.

(** [v ? parseInt(v) : undefined] *)
Lemma guarded_parseInt (v : JsValue) :
  (if truthy v then n <- parseInt v ;; Ok (Some n) else Ok None)
  = if convertible v
    then Ok (if truthy v then Some (readInt v) else None)
    else Throw cannotConvert.
Proof.
  unfold parseInt. destruct (truthy v) eqn:T.
  - destruct (convertible v); reflexivity.
  - now rewrite (falsy_convertible _ T).
Qed.

Lemma parseVisibility_ok_iff (v : JsValue) :
  (exists r, parseVisibility v = Ok r) <-> convertible v = true.
Proof.
  unfold parseVisibility, parseFloat.
  destruct v as [| |b|n|s|items|props]; simpl;
    repeat match goal with
           | |- context [if ?c then _ else _] => destruct c
           end;
    cbn [bind]; split; eauto; try discriminate;
    intros (r & E); discriminate E.
Qed.

(** *** Cloud layers *)

Lemma parseCloud_layerOf (entry : JsValue) :
  cloudEntryWellFormed entry -> parseCloud entry = Ok (layerOf entry).
Proof.
  intros (H & C). unfold parseCloud, layerOf, js_or.
  rewrite H, guarded_parseInt, C. cbn [bind].
  destruct (truthy (field entry "cover")) eqn:E1; cbv iota;
    rewrite ?E1; trivial.
Qed.

Lemma parseCloud_ok_iff (entry : JsValue) :
  (exists layer, parseCloud entry = Ok layer) <-> cloudEntryWellFormed entry.
Proof.
  split.
  - intros (layer & E). unfold parseCloud in E.
    destruct (nullish entry) eqn:N; [discriminate|].
    rewrite guarded_parseInt in E.
    destruct (convertible (field entry "base")) eqn:C; [|discriminate].
    now split.
  - intros H. rewrite (parseCloud_layerOf H). eauto.
Qed.

Lemma parseCloud_throws (entry : JsValue) (e : JsError) :
  parseCloud entry = Throw e -> exists message, e = TypeError message.
Proof.
  unfold parseCloud. destruct (nullish entry).
  - intros E. inversion E. eexists. reflexivity.
  - rewrite guarded_parseInt. destruct (convertible (field entry "base"));
      cbn [bind]; intros E; inversion E. eexists. reflexivity.
Qed.


Lemma parseClouds_array_ok_iff (items : list JsValue) :
  (exists layers, parseClouds (JsArray items) = Ok layers)
  <-> Forall cloudEntryWellFormed items.
Proof.
  simpl. rewrite mapM_ok_iff. split; intros H;
    (eapply Forall_impl; [|exact H]); intros e; apply parseCloud_ok_iff.
Qed.




(** C2, at the failing input.  The observation's own layers hold an
    overcast layer at 300 ft, so its ceiling is 300 and the classifier
    gives LIFR for its ceiling and visibility; the embedded category, computed
    from [data.clouds] alone, is VFR. *)
Theorem C2_flightCategory_ignores_skyCondition :
  exists m,
    parseMetarResponse skyConditionRecord = Ok m /\
    clouds m = [{| type := JsString "OVC"; altitude := Some (Fin 300) |}] /\
    lowestCeiling (clouds m) = Some (Fin 300) /\
    visibility m = Some (Fin 10) /\
    Analysis.determineFlightCategory (lowestCeiling (clouds m)) (visibility m)
    = LIFR /\
    flightCategory m = Some VFR.
Proof. eexists. repeat split. Qed.

(** C4, at the failing inputs.  The three examples of the spec hold, and a
    string that reaches the last line of the function is absent when it is
    not numeric; but the two early returns hand back [NaN] for a string that
    is not numeric. *)
Theorem C4_parseVisibility_examples :
  parseVisibility (JsString "10+") = Ok (Some (Fin 10)) /\
  parseVisibility (JsString "P6SM") = Ok (Some (Fin 6)) /\
  parseVisibility (JsString "") = Ok None /\
  (forall s, endsWith s "+" = false ->
             startsWith s "P" && endsWith s "SM" = false ->
             parseFloatStr s = NaN ->
             parseVisibility (JsString s) = Ok None) /\
  parseFloatStr "+" = NaN /\
  parseVisibility (JsString "+") = Ok (Some NaN) /\
  parseFloatStr "PSM" = NaN /\
  parseVisibility (JsString "PSM") = Ok (Some NaN).
Proof.
  repeat apply conj; try reflexivity.
  intros s H1 H2 H3. unfold parseVisibility.
  destruct (negb (truthy (JsString s))); trivial.
  rewrite H1, H2. simpl. now rewrite H3.
Qed.

Lemma parseVisibility_generic (s : string) :
  endsWith s "+" = false ->
  startsWith s "P" && endsWith s "SM" = false ->
  parseVisibility (JsString s)
  = Ok (if truthy_str s then num_or_undefined (parseFloatStr s) else None).
Proof.
  intros H1 H2. unfold parseVisibility, truthy_str. simpl.
  destruct (negb (String.eqb s "")); simpl; trivial.
  now rewrite H1, H2.
Qed.

(** C10, as stated, fails: ["0+"] is a string whose numeric coercion is 0,
    and its visibility is 0, not absent. *)
Lemma C10_counterexample :
  parseFloat (JsString "0+") = Ok (Fin 0) /\
  parseVisibility (JsString "0+") = Ok (Some (Fin 0)) /\
  parseVisibility (JsString "0+") <> Ok None.
Proof. repeat split. discriminate. Qed.

(** C10, amended.  The number 0, the string ["0"], and every string that
    takes neither the ["10+"] nor the ["P6SM"] branch and whose [parseFloat]
    is 0 normalise to an absent visibility; and an observation whose [visib]
    normalises to absent is mapped exactly as the same record without
    [visib], flight category included. *)
Theorem C10_zero_visibility_is_absent :
  (forall q, (q == 0)%Q -> parseVisibility (JsNumber (Fin q)) = Ok None) /\
  parseVisibility (JsString "0") = Ok None /\
  (forall s q,
     endsWith s "+" = false ->
     startsWith s "P" && endsWith s "SM" = false ->
     parseFloatStr s = Fin q -> (q == 0)%Q ->
     parseVisibility (JsString s) = Ok None) /\
  (forall v props,
     parseVisibility v = Ok None ->
     lookup "visib" props = JsUndefined ->
     parseMetarResponse (JsObject (("visib", v) :: props))
     = parseMetarResponse (JsObject props)).
Proof.
  repeat apply conj.
  - intros q Hq. unfold parseVisibility, truthy.
    now rewrite (truthy_num_zero Hq).
  - reflexivity.
  - intros s q H1 H2 H3 Hq. rewrite parseVisibility_generic by assumption.
    destruct (truthy_str s); trivial.
    rewrite H3. unfold num_or_undefined. now rewrite (truthy_num_zero Hq).
  - intros v props Hv Hp.
    unfold parseMetarResponse, determineFlightCategory. simpl.
    rewrite Hv, Hp. reflexivity.
Qed.

Lemma C10_zero_visibility_is_absent_witness :
  parseVisibility (JsString "0.0") = Ok None /\
  parseMetarResponse
    (JsObject [("visib", JsNumber (Fin 0)); ("icaoId", JsString "KDEN")])
  = parseMetarResponse (JsObject [("icaoId", JsString "KDEN")]).
Proof.
  destruct C10_zero_visibility_is_absent as (Hn & _ & Hs & Hm). split.
  - apply (Hs "0.0" 0%Q); reflexivity.
  - apply Hm; [apply Hn|]; reflexivity.
Defined.

(** *** When the embedded category is the classifier's

    The class method decides by truthiness ([ceiling && ceiling < 500]);
    the classifier by definedness.  The ceiling loop never yields zero or
    [NaN], so the two differ only on a visibility of zero. *)

Lemma ceilingStep_truthy (acc : option JsNum) (cloud : CloudLayer) :
  (forall c, acc = Some c -> truthy_num c = true) ->
  forall c, ceilingStep acc cloud = Some c -> truthy_num c = true.
Proof.
  intros Hacc c. unfold ceilingStep.
  destruct ((is_string (type cloud) "BKN" || is_string (type cloud) "OVC")
            && truthy_opt (altitude cloud)) eqn:G; [|apply Hacc].
  apply andb_true_iff in G. destruct G as (_ & G).
  destruct (altitude cloud) as [a|]; [|discriminate G]. simpl in G.
  destruct acc as [c0|].
  - destruct (negb (truthy_num c0) || js_lt a c0); [|apply Hacc].
    intros E. now inversion E; subst.
  - intros E. now inversion E; subst.
Qed.

Lemma lowestCeiling_truthy (layers : list CloudLayer) (c : JsNum) :
  lowestCeiling layers = Some c -> truthy_num c = true.
Proof.
  unfold lowestCeiling.
  assert (G : forall acc,
             (forall c, acc = Some c -> truthy_num c = true) ->
             forall c, fold_left ceilingStep layers acc = Some c ->
                       truthy_num c = true).
  { induction layers as [|cloud rest IH]; simpl; intros acc Hacc; [exact Hacc|].
    apply IH. now apply ceilingStep_truthy. }
  apply G. discriminate.
Qed.


Lemma determineFlightCategory_truthyCategory (data : JsValue) :
  nullish data = false ->
  determineFlightCategory data
  = (visibility <- parseVisibility (field data "visib") ;;
     layers <- parseClouds (field data "clouds" ||| JsArray []) ;;
     Ok (truthyCategory (lowestCeiling layers) visibility)).
Proof.
  intros N. unfold determineFlightCategory, truthyCategory. rewrite N.
  destruct (parseVisibility (field data "visib")) as [vis|e];
    cbn [bind]; trivial.
  destruct (parseClouds (field data "clouds" ||| JsArray [])) as [cl|e];
    cbn [bind]; trivial.
  repeat match goal with
         | |- context [if ?b then _ else _] => destruct b
         end; reflexivity.
Qed.

(** What a mapped observation holds: its visibility and layers are the
    parsed ones, and its category is computed from the layers under
    [clouds] alone. *)
Lemma parseMetarResponse_fields (data : JsValue) (m : MetarData) :
  parseMetarResponse data = Ok m ->
  nullish data = false /\
  parseVisibility (field data "visib") = Ok (visibility m) /\
  parseClouds
    (field data "clouds" ||| field data "skyCondition" ||| JsArray [])
  = Ok (clouds m) /\
  exists layers,
    parseClouds (field data "clouds" ||| JsArray []) = Ok layers /\
    flightCategory m
    = Some (truthyCategory (lowestCeiling layers) (visibility m)).
Proof.
  unfold parseMetarResponse.
  destruct (nullish data) eqn:N; [discriminate|]. intros E.
  rewrite (determineFlightCategory_truthyCategory _ N) in E.
  destruct (parseFloat (field data "temp")); [|discriminate].
  destruct (parseFloat (field data "dewp")); [|discriminate].
  destruct (parseInt (field data "wdir")); [|discriminate].
  destruct (parseInt (field data "wspd")); [|discriminate].
  destruct (parseInt (field data "wgst")); [|discriminate].
  cbn [bind] in E.
  destruct (parseVisibility (field data "visib")) as [vis|e]; [|discriminate].
  cbn [bind] in E.
  destruct (parseFloat (field data "altim")); [|discriminate].
  cbn [bind] in E.
  destruct (parseClouds
              (field data "clouds" ||| field data "skyCondition" ||| JsArray []))
    as [cl|e]; [|discriminate].
  cbn [bind] in E.
  destruct (parseClouds (field data "clouds" ||| JsArray [])) as [cl2|e];
    [|discriminate].
  cbn [bind] in E. inversion E; subst m. cbn. eauto 6.
Qed.




(** A visibility of ["0+"] is parsed as 0, which the class method treats
    as falsy: the embedded category is VFR, the classifier's is LIFR. *)
Lemma embedded_category_zero_visibility :
  exists m,
    parseMetarResponse (JsObject [("visib", JsString "0+")]) = Ok m /\
    visibility m = Some (Fin 0) /\
    lowestCeiling (clouds m) = None /\
    flightCategory m = Some VFR /\
    Analysis.determineFlightCategory (lowestCeiling (clouds m)) (visibility m)
    = LIFR.
Proof. eexists. repeat split. Qed.

(** The round-trip example of the spec: the ceiling is 20000 ft, from the
    broken layer, and the category is VFR. *)
Lemma mapping_example_KDEN :
  exists m,
    getMetar (JsArray [kdenRecord]) = Ok [m] /\
    station m = JsString "KDEN" /\
    temperature m = Some (Fin 22) /\
    visibility m = Some (Fin 10) /\
    lowestCeiling (clouds m) = Some (Fin 20000) /\
    flightCategory m = Some VFR.
Proof. eexists. repeat split. Qed.

(** A [null] entry makes the cloud parser throw; an input that is not an
    array yields no layer. *)
Lemma parseClouds_null_entry (items : list JsValue) :
  Exists (fun e => nullish e = true) items ->
  exists message, parseClouds (JsArray items) = Throw (TypeError message).
Proof.
  simpl. induction 1 as [e rest H | e rest _ (msg & IH)]; simpl.
  - unfold parseCloud. rewrite H. cbn [bind]. eexists. reflexivity.
  - destruct (parseCloud e) as [layer|err] eqn:P; cbn [bind].
    + rewrite IH. cbn [bind]. eexists. reflexivity.
    + destruct (parseCloud_throws _ P) as (message & ->). eauto.
Qed.

Lemma parseClouds_null_entry_witness :
  exists message,
    parseClouds (JsArray [JsObject [("cover", JsString "FEW")]; JsNull])
    = Throw (TypeError message).
Proof.
  apply parseClouds_null_entry. apply Exists_cons_tl, Exists_cons_hd.
  reflexivity.
Defined.

End Mapping.

(** ** Station lookup *)

Section Lookup.

Import Service.

(** C6, as stated, fails: no record matches the requested station, yet
    the lookup does not fail, it returns the first record's information;
    and when the matching record is not the first one, it is still the
    first record's information that is returned. *)
Lemma C6_counterexample :
  let klas := JsObject [("icaoId", JsString "KLAS"); ("name", JsString "Las Vegas")] in
  let kden := JsObject [("icaoId", JsString "KDEN"); ("name", JsString "Denver")] in
  existsb (matchesStation "KDEN") [klas] = false /\
  getStationInfo (JsArray [klas]) "KDEN"
  = Ok {| icao := JsString "KLAS"; name := JsString "Las Vegas";
          latitude := None; longitude := None; elevation := None |} /\
  existsb (matchesStation "KDEN") [klas; kden] = true /\
  getStationInfo (JsArray [klas; kden]) "KDEN"
  = getStationInfo (JsArray [klas]) "KDEN".
Proof. repeat split. Qed.

(** C6, amended.  The lookup fails with STATION_NOT_FOUND exactly when the
    result is not a sequence or is an empty one.  On a non-empty sequence
    only the first record is looked at, whatever station it is for: when it
    is not [null] and its [lat], [lon] and [elev] have a string, its
    information is returned, the requested identifier standing in for a
    missing [icaoId] or [name]; otherwise a [TypeError] is thrown. *)
Theorem C6_station_lookup (data : JsValue) (stationId : string) :
  (stationNotFound (getStationInfo data stationId)
   <-> forall first rest, data <> JsArray (first :: rest)) /\
  (forall first rest,
     data = JsArray (first :: rest) ->
     (stationRecordWellFormed first ->
      getStationInfo data stationId
      = Ok {|
          icao := field first "icaoId" ||| JsString (toUpperCase (trim stationId));
          name := field first "name" ||| JsString (toUpperCase (trim stationId));
          latitude := num_or_undefined (readFloat (field first "lat"));
          longitude := num_or_undefined (readFloat (field first "lon"));
          elevation := if truthy (field first "elev")
                       then Some (readInt (field first "elev")) else None
        |}) /\
     (~ stationRecordWellFormed first ->
      exists message,
        getStationInfo data stationId = Throw (TypeError message))).
Proof.
  split.
  - unfold stationNotFound, getStationInfo. split.
    + intros (msg & E) first rest ->. revert E.
      unfold parseFloat. rewrite guarded_parseInt.
      destruct (nullish first); [discriminate|].
      destruct (convertible (field first "lat")); [|discriminate].
      destruct (convertible (field first "lon")); [|discriminate].
      destruct (convertible (field first "elev")); discriminate.
    + intros H. destruct data as [| | | | |items|]; try (eexists; reflexivity).
      destruct items as [|first rest]; [eexists; reflexivity|].
      now destruct (H first rest).
  - intros first rest ->. unfold getStationInfo, parseFloat.
    rewrite guarded_parseInt. split.
    + intros (N & W).
      inversion W as [|? ? C1 W1]; inversion W1 as [|? ? C2 W2];
        inversion W2 as [|? ? C3 _]; subst.
      now rewrite N, C1, C2, C3.
    + intros H. destruct (nullish first) eqn:N; [eexists; reflexivity|].
      destruct (convertible (field first "lat")) eqn:C1;
        [|eexists; reflexivity].
      destruct (convertible (field first "lon")) eqn:C2;
        [|eexists; reflexivity].
      destruct (convertible (field first "elev")) eqn:C3;
        [|eexists; reflexivity].
      destruct H. split; trivial. repeat constructor; assumption.
Qed.

Lemma C6_station_lookup_witness :
  stationNotFound (getStationInfo (JsArray []) "ZZZZ") /\
  getStationInfo
    (JsArray [JsObject [("icaoId", JsString "KDEN"); ("elev", JsString "5431")]])
    "kden"
  = Ok {| icao := JsString "KDEN"; name := JsString "KDEN";
          latitude := None; longitude := None;
          elevation := Some (Fin 5431) |} /\
  exists message,
    getStationInfo
      (JsArray [JsObject [("lat", JsObject [("toString", JsNumber (Fin 1))])]])
      "kden"
    = Throw (TypeError message).
Proof.
  split; [|split].
  - apply (proj1 (C6_station_lookup (JsArray []) "ZZZZ")). discriminate.
  - apply (proj2 (C6_station_lookup
             (JsArray [JsObject [("icaoId", JsString "KDEN");
                                 ("elev", JsString "5431")]]) "kden")
             (JsObject [("icaoId", JsString "KDEN"); ("elev", JsString "5431")])
             [] eq_refl).
    split; [reflexivity | repeat constructor].
  - apply (proj2 (C6_station_lookup
             (JsArray [JsObject [("lat", JsObject [("toString", JsNumber (Fin 1))])]])
             "kden")
             (JsObject [("lat", JsObject [("toString", JsNumber (Fin 1))])])
             [] eq_refl).
    intros (_ & W). inversion W as [|? ? C _]. discriminate C.
Defined.

End Lookup.

(** ** Intensities *)

Section Intensity.

Import Service.

(** Turbulence: the result is at least as severe as every token that
    occurs, and it occurs itself as soon as some token does. *)
Lemma parseTurbulenceIntensity_worst (value : string) :
  (forall i, occurs (turbulenceToken i) value ->
             turbulenceRank i <= turbulenceRank (parseTurbulenceIntensity value)) /\
  ((exists i, occurs (turbulenceToken i) value) ->
   occurs (turbulenceToken (parseTurbulenceIntensity value)) value).
Proof.
  unfold occurs, parseTurbulenceIntensity.
  destruct (includes (toUpperCase value) "EXTREME") eqn:E1;
    destruct (includes (toUpperCase value) "SEVERE") eqn:E2;
    destruct (includes (toUpperCase value) "MODERATE") eqn:E3;
    (split; [intros [] H | intros ([] & H)]); simpl in *; try lia;
    congruence.
Qed.

(** C7, at the failing input.  The value holds both TRACE and LIGHT;
    LIGHT is the worse of the two, and the icing intensity is TRACE. *)
Theorem C7_icing_trace_beats_light :
  occurs (icingToken Icing.TRACE) "TRACE TO LIGHT RIME" /\
  occurs (icingToken Icing.LIGHT) "TRACE TO LIGHT RIME" /\
  icingRank Icing.TRACE < icingRank Icing.LIGHT /\
  parseIcingIntensity "TRACE TO LIGHT RIME" = Icing.TRACE.
Proof. repeat split. simpl. lia. Qed.

End Intensity.

(** ** Strings and patterns *)

Lemma append_assoc (a b c : string) : (a ++ b) ++ c = a ++ (b ++ c).
Proof. induction a as [|x a IH]; simpl; [|rewrite IH]; reflexivity. Qed.

Lemma prefix_append (p x : string) : String.prefix p (p ++ x) = true.
Proof.
  induction p as [|c p IH]; simpl.
  - now destruct x.
  - destruct (ascii_dec c c) as [_|N]; [exact IH | now destruct N].
Qed.

Lemma extends_refl (d : string) : extends d d.
Proof. exists EmptyString. induction d; simpl; congruence. Qed.

Lemma extends_trans (a b c : string) : extends a b -> extends b c -> extends a c.
Proof. intros (x & ->) (y & ->). exists (x ++ y). apply append_assoc. Qed.

Lemma extends_append (d x : string) : extends d (d ++ x).
Proof. now exists x. Qed.

Lemma split_char_cons (sep : ascii) (s : string) :
  exists rest, split_char sep s = upTo sep s :: rest.
Proof.
  induction s as [|c s (rest & IH)]; simpl.
  - now exists [].
  - destruct (Ascii.eqb c sep).
    + eexists. reflexivity.
    + rewrite IH. eexists. reflexivity.
Qed.

Lemma split_char_two (sep : ascii) (a b : string) :
  exists x y rest, split_char sep (a ++ String sep b) = x :: y :: rest.
Proof.
  induction a as [|c a (x & y & rest & IH)]; simpl.
  - rewrite Ascii.eqb_refl.
    destruct (split_char_cons sep b) as (rest & ->). eauto.
  - destruct (Ascii.eqb c sep).
    + destruct (split_char_cons sep (a ++ String sep b)) as (r & ->). eauto.
    + rewrite IH. eauto.
Qed.

Lemma nullable_Matches (r : Re) : nullable r = true -> Matches r EmptyString.
Proof.
  induction r as [| |p|a IHa b IHb|a IHa b IHb|a IHa]; simpl; intros H;
    try discriminate.
  - constructor.
  - apply andb_true_iff in H. destruct H as (Ha & Hb).
    change EmptyString with (EmptyString ++ EmptyString). constructor; auto.
  - apply orb_true_iff in H. destruct H; [apply MAltL | apply MAltR]; auto.
  - constructor.
Qed.

Lemma deriv_Matches (c : ascii) (r : Re) :
  forall s, Matches (deriv c r) s -> Matches r (String c s).
Proof.
  induction r as [| |p|a IHa b IHb|a IHa b IHb|a IHa]; simpl; intros s H.
  - inversion H.
  - inversion H.
  - destruct (p c) eqn:E; inversion H; subst. now constructor.
  - destruct (nullable a) eqn:N.
    + inversion H as [| | |? ? ? H1|? ? ? H1| |]; subst.
      * inversion H1 as [| |? ? s1 s2 Ha Hb| | | |]; subst.
        change (String c (s1 ++ s2)) with (String c s1 ++ s2).
        constructor; auto.
      * change (String c s) with (EmptyString ++ String c s).
        constructor; auto using nullable_Matches.
    + inversion H as [| |? ? s1 s2 Ha Hb| | | |]; subst.
      change (String c (s1 ++ s2)) with (String c s1 ++ s2).
      constructor; auto.
  - inversion H; subst; [apply MAltL | apply MAltR]; auto.
  - inversion H as [| |? ? s1 s2 Ha Hb| | | |]; subst.
    change (String c (s1 ++ s2)) with (String c s1 ++ s2).
    constructor; auto.
Qed.

(** The matcher is sound for the denotation. *)
Lemma test_Matches (s : string) : forall r, test r s = true -> Matches r s.
Proof.
  induction s as [|c s IH]; simpl; intros r H.
  - now apply nullable_Matches.
  - apply deriv_Matches. now apply IH.
Qed.

Lemma Matches_lit (c : ascii) (s : string) :
  Matches (lit c) s -> s = String c EmptyString.
Proof.
  unfold lit. inversion 1 as [|? d E| | | | |]; subst.
  apply Ascii.eqb_eq in E. now subst.
Qed.

(** ** Raw-text segmentation *)

Section Segmentation.

Import Service.

Lemma scanLines_flat_map (lines : list string) :
  forall results,
    scanLines lines results = Ok (results ++ flat_map recordOfLine lines)%list.
Proof.
  induction lines as [|line rest IH]; intros results; cbn [scanLines flat_map].
  - now rewrite app_nil_r.
  - unfold recordOfLine at 1.
    destruct (truthy_str (trim line)); cbn [andb].
    + destruct (split_char_cons " " (trim line)) as (r & ->).
      cbn [nth_error matchStation bind].
      destruct (test (times 4 upper) (upTo " " (trim line))).
      * rewrite IH, <- app_assoc. reflexivity.
      * apply IH.
    + apply IH.
Qed.

Lemma flat_map_nonblank (lines : list string) :
  flat_map recordOfLine (filter (fun line => truthy_str (trim line)) lines)
  = flat_map recordOfLine lines.
Proof.
  induction lines as [|line rest IH]; cbn [filter flat_map]; trivial.
  destruct (truthy_str (trim line)) eqn:E; cbn [flat_map].
  - now rewrite IH.
  - rewrite IH. unfold recordOfLine at 2. now rewrite E.
Qed.

Lemma segmentation_by_lines (text : string) :
  getMetarByBounds_text text
  = Ok (flat_map recordOfLine (split_char "010" text)).
Proof.
  unfold getMetarByBounds_text.
  rewrite scanLines_flat_map. simpl. now rewrite flat_map_nonblank.
Qed.

(** C9, amended.  The records are those of the lines, in line order: a
    line that is not blank and whose trimmed text, up to its first space
    character, is four upper case letters yields exactly one record, with
    that token as station and the trimmed line as raw text; every other line
    yields no record; no input raises an error.  The two-line example yields
    the two records KDEN and KLAS. *)
Theorem C9_single_line_segmentation :
  (forall text,
     getMetarByBounds_text text
     = Ok (flat_map recordOfLine (split_char "010" text))) /\
  getMetarByBounds_text
    ("KDEN 121652Z ..." ++ nl ++ "KLAS 121653Z ..." ++ nl)
  = Ok [{| RawMetar.raw := "KDEN 121652Z ..."; RawMetar.station := "KDEN" |};
        {| RawMetar.raw := "KLAS 121653Z ..."; RawMetar.station := "KLAS" |}].
Proof. split; [exact segmentation_by_lines | reflexivity]. Qed.

(** C9, as stated, fails: the line is not blank and its first
    white-space-delimited token, KDEN, matches the pattern, but the token is
    followed by a tab, and the line yields no record. *)
Lemma C9_counterexample :
  let line := "KDEN" ++ String "009" "121652Z 27015KT 10SM" in
  truthy_str (trim line) = true /\
  firstWord line = Some "KDEN" /\
  test (times 4 upper) "KDEN" = true /\
  getMetarByBounds_text line = Ok [].
Proof. repeat split. Qed.

(** *** Segmenting the raw text of a record again *)

Lemma trimEnd_idempotent (s : string) : trimEnd (trimEnd s) = trimEnd s.
Proof.
  induction s as [|c t IH]; simpl; trivial.
  destruct (trimEnd t) as [|d t'] eqn:E.
  - destruct (isWhitespace c) eqn:W; simpl; trivial. now rewrite W.
  - simpl in IH |- *. now rewrite IH.
Qed.

Lemma trimStart_trimEnd (s : string) :
  trimStart s = s -> trimStart (trimEnd s) = trimEnd s.
Proof.
  destruct s as [|c t]; simpl; trivial.
  destruct (isWhitespace c) eqn:W.
  - intros E. exfalso.
    assert (L : forall u, String.length (trimStart u) <= String.length u).
    { induction u as [|d u IHu]; simpl; [lia|].
      destruct (isWhitespace d); simpl; lia. }
    specialize (L t). rewrite E in L. simpl in L. lia.
  - intros _. destruct (trimEnd t); simpl; now rewrite W.
Qed.

Lemma trimStart_idempotent (s : string) : trimStart (trimStart s) = trimStart s.
Proof.
  induction s as [|c t IH]; simpl; trivial.
  destruct (isWhitespace c) eqn:W; trivial. simpl. now rewrite W.
Qed.

Lemma trim_idempotent (s : string) : trim (trim s) = trim s.
Proof.
  unfold trim.
  rewrite (@trimStart_trimEnd (trimStart s) (trimStart_idempotent s)).
  apply trimEnd_idempotent.
Qed.

Lemma has_trimStart (c : ascii) (s : string) :
  has c s = false -> has c (trimStart s) = false.
Proof.
  induction s as [|d t IH]; simpl; trivial. intros H.
  apply orb_false_iff in H. destruct H as (H1 & H2).
  destruct (isWhitespace d); auto. simpl. now rewrite H1, H2.
Qed.

Lemma has_trimEnd (c : ascii) (s : string) :
  has c s = false -> has c (trimEnd s) = false.
Proof.
  induction s as [|d t IH]; simpl; trivial. intros H.
  apply orb_false_iff in H. destruct H as (H1 & H2). specialize (IH H2).
  destruct (trimEnd t) as [|e t'].
  - destruct (isWhitespace d); simpl; trivial. now rewrite H1.
  - cbn [has]. cbn [has] in IH. now rewrite H1, IH.
Qed.

Lemma split_char_pieces (sep : ascii) (s : string) :
  Forall (fun piece => has sep piece = false) (split_char sep s).
Proof.
  induction s as [|c t IH]; simpl.
  - repeat constructor.
  - destruct (Ascii.eqb c sep) eqn:E.
    + constructor; trivial.
    + destruct (split_char sep t) as [|h r]; inversion IH; subst;
        constructor; simpl; rewrite ?E; auto.
Qed.

Lemma split_char_single (sep : ascii) (s : string) :
  has sep s = false -> split_char sep s = [s].
Proof.
  induction s as [|c t IH]; simpl; trivial. intros H.
  apply orb_false_iff in H. destruct H as (H1 & H2).
  now rewrite H1, (IH H2).
Qed.

(** Idempotence: the raw text of a segmented record, segmented again,
    yields that record alone. *)
Lemma segmentation_idempotent (text : string) (records : list RawMetar.t)
      (r : RawMetar.t) :
  getMetarByBounds_text text = Ok records ->
  In r records ->
  getMetarByBounds_text (RawMetar.raw r) = Ok [r].
Proof.
  rewrite !segmentation_by_lines. intros E Hin. inversion E; subst. clear E.
  apply in_flat_map in Hin. destruct Hin as (line & Hline & Hr).
  unfold recordOfLine in Hr.
  destruct (truthy_str (trim line) && test (times 4 upper) (upTo " " (trim line)))
    eqn:T; [|contradiction].
  destruct Hr as [<-|[]]. cbn [RawMetar.raw].
  assert (N : has "010" (trim line) = false).
  { apply has_trimEnd, has_trimStart.
    pose proof (split_char_pieces "010" text) as F.
    rewrite Forall_forall in F. now apply F. }
  rewrite (@split_char_single _ _ N). cbn [flat_map].
  unfold recordOfLine. rewrite trim_idempotent, T. reflexivity.
Qed.

Lemma segmentation_idempotent_witness :
  getMetarByBounds_text "KLAS 121653Z 00000KT"
  = Ok [{| RawMetar.raw := "KLAS 121653Z 00000KT"; RawMetar.station := "KLAS" |}].
Proof.
  apply (@segmentation_idempotent
           ("KDEN 121652Z 27015KT" ++ nl ++ "  KLAS 121653Z 00000KT  " ++ nl)
           [{| RawMetar.raw := "KDEN 121652Z 27015KT"; RawMetar.station := "KDEN" |};
            {| RawMetar.raw := "KLAS 121653Z 00000KT"; RawMetar.station := "KLAS" |}]
           {| RawMetar.raw := "KLAS 121653Z 00000KT"; RawMetar.station := "KLAS" |}).
  - reflexivity.
  - right. left. reflexivity.
Defined.

End Segmentation.

(** ** The METAR decoder *)

Section Decoder.

Import Analysis.

(** The guard [parts[index] && parts[index].match(r)] never throws, and it
    holds only when there is a token. *)
Lemma guarded_match_cases (r : Re) (tok : option string) :
  and_then (truthy_tok tok) (js_match r tok) = Ok false
  \/ (exists s, tok = Some s)
     /\ and_then (truthy_tok tok) (js_match r tok) = Ok true.
Proof.
  destruct tok as [s|]; simpl; auto.
  destruct (truthy_str s); simpl; auto.
  destruct (test r s); eauto.
Qed.

Lemma decodeType_extends (st : Scan) : extends (fst st) (fst (decodeType st)).
Proof.
  destruct st as (d, rest). unfold decodeType.
  destruct (tok_is (tokenAt rest) "METAR" || tok_is (tokenAt rest) "SPECI");
    cbn [fst]; auto using extends_refl, extends_append.
Qed.

Lemma decodeStation_ok (st : Scan) :
  exists st', decodeStation st = Ok st' /\ extends (fst st) (fst st').
Proof.
  destruct st as (d, rest). unfold decodeStation.
  destruct (guarded_match_cases stationRe (tokenAt rest)) as [-> | (_ & ->)];
    cbn [bind]; eexists; (split; [reflexivity|]); cbn [fst];
    auto using extends_refl, extends_append.
Qed.

Lemma decodeTime_ok (st : Scan) :
  exists st', decodeTime st = Ok st' /\ extends (fst st) (fst st').
Proof.
  destruct st as (d, rest). unfold decodeTime.
  destruct (guarded_match_cases timeRe (tokenAt rest))
    as [-> | ((s & ->) & ->)];
    cbn [bind js_substring_of]; eexists; (split; [reflexivity|]); cbn [fst];
    auto using extends_refl, extends_append.
Qed.

Lemma decodeWind_ok (st : Scan) :
  exists st', decodeWind st = Ok st' /\ extends (fst st) (fst st').
Proof.
  destruct st as (d, rest). unfold decodeWind.
  destruct (guarded_match_cases windRe (tokenAt rest))
    as [-> | ((s & ->) & ->)];
    cbn [bind js_substring_of matchGust]; eexists;
    (split; [reflexivity|]); cbn [fst]; auto using extends_refl.
  destruct (findGust s);
    repeat (eapply extends_trans; [|apply extends_append]);
    apply extends_refl.
Qed.

Lemma decodeVisibility_extends (rest : list string) (d : string) :
  extends d (fst (decodeVisibility d rest)).
Proof.
  induction rest as [|part rest IH]; cbn [decodeVisibility].
  - apply extends_refl.
  - destruct (test visWholeRe part || test visFractionRe part
              || String.eqb part "CAVOK"); [|exact IH].
    destruct (String.eqb part "CAVOK"); cbn [fst]; apply extends_append.
Qed.

(** A token that matches the temperature pattern holds a slash, so
    splitting it yields both [temps[0]] and [temps[1]]. *)
Lemma tempRe_split (part : string) :
  test tempRe part = true ->
  exists x y rest, split_char "/" part = x :: y :: rest.
Proof.
  intros H. apply test_Matches in H. unfold tempRe in H.
  inversion H as [| |? ? s1 r1 _ H1| | | |]; subst.
  inversion H1 as [| |? ? s2 r2 _ H2| | | |]; subst.
  inversion H2 as [| |? ? s3 r3 H3 _| | | |]; subst.
  apply Matches_lit in H3. subst.
  rewrite <- append_assoc. apply split_char_two.
Qed.

Lemma decodeTemperature_ok (st : Scan) :
  exists st', decodeTemperature st = Ok st' /\ extends (fst st) (fst st').
Proof.
  destruct st as (d, rest). unfold decodeTemperature.
  destruct rest as [|part rest];
    [eexists; split; [reflexivity | apply extends_refl]|].
  destruct (test tempRe part) eqn:E;
    [|eexists; split; [reflexivity | apply extends_refl]].
  destruct (tempRe_split _ E) as (x & y & r & ->).
  cbn [nth_error js_replace bind].
  eexists. split; [reflexivity|]. cbn [fst]. apply extends_append.
Qed.

Lemma decodeAltimeter_extends (st : Scan) :
  extends (fst st) (fst (decodeAltimeter st)).
Proof.
  destruct st as (d, rest). unfold decodeAltimeter.
  destruct rest as [|alt rest]; [apply extends_refl|].
  destruct (test altimeterRe alt || test qnhRe alt); [|apply extends_refl].
  destruct (startsWith alt "A"); cbn [fst]; apply extends_append.
Qed.

(** The decoder returns for every input, and what it returns begins with
    the header. *)
Lemma decodeMetar_ok (raw : string) :
  exists prose,
    decodeMetar raw = Ok prose /\ extends ("Decoded METAR:" ++ nl ++ nl) prose.
Proof.
  unfold decodeMetar.
  set (header := "Decoded METAR:" ++ nl ++ nl).
  set (parts := split_ws (trim raw)).
  pose proof (decodeType_extends (header, parts)) as H0. cbn [fst] in H0.
  destruct (decodeStation_ok (decodeType (header, parts))) as (st1 & -> & H1).
  cbn [bind].
  destruct (decodeTime_ok st1) as (st2 & -> & H2).
  cbn [bind].
  destruct (decodeWind_ok st2) as (st3 & -> & H3).
  cbn [bind].
  pose proof (decodeVisibility_extends (snd st3) (fst st3)) as H4.
  destruct (decodeVisibility (fst st3) (snd st3)) as (d4, r4). cbn [fst] in H4.
  destruct (weatherLoop [] r4) as (weather, r5).
  set (d5 := if (0 <? List.length weather)%nat then _ else d4).
  assert (H5 : extends d4 d5)
    by (subst d5; destruct (0 <? List.length weather)%nat;
        auto using extends_refl, extends_append).
  destruct (cloudLoop [] r5) as (clouds, r6).
  set (d6 := if (0 <? List.length clouds)%nat then _ else d5).
  assert (H6 : extends d5 d6)
    by (subst d6; destruct (0 <? List.length clouds)%nat;
        auto using extends_refl, extends_append).
  destruct (decodeTemperature_ok (d6, r6)) as (st7 & -> & H7).
  cbn [bind fst] in *.
  pose proof (decodeAltimeter_extends st7) as H8.
  destruct (decodeAltimeter st7) as (d8, r8). cbn [fst] in H8.
  assert (H : extends header d8)
    by (repeat (eapply extends_trans; [eassumption|]); apply extends_refl).
  destruct (afterRMK parts); eexists; (split; [reflexivity|]); trivial.
  eapply extends_trans; [exact H | apply extends_append].
Qed.

(** C5, amended.  The decoder never fails: for every input, the empty
    string included, it returns a prose string that begins with the header
    line, and the tool handler reports it without the error flag. *)
Theorem C5_decodeMetar_never_fails (raw : string) :
  exists prose,
    decodeMetar raw = Ok prose /\
    startsWith prose ("Decoded METAR:" ++ nl ++ nl) = true /\
    decodeMetarTool raw = {| text := prose; isError := false |}.
Proof.
  destruct (decodeMetar_ok raw) as (prose & E & x & ->).
  eexists. split; [exact E|]. split.
  - apply prefix_append.
  - unfold decodeMetarTool. now rewrite E.
Qed.

(** C5, as stated, fails: on the empty string the decoder does not fail,
    it returns the bare header, and the handler flags no error. *)
Lemma C5_counterexample :
  decodeMetar "" = Ok ("Decoded METAR:" ++ nl ++ nl) /\
  isError (decodeMetarTool "") = false.
Proof. split; reflexivity. Qed.

(** The decoder example of the spec, line by line. *)
Lemma decodeMetar_example :
  decodeMetar "METAR KDEN 121652Z 27015G25KT 10SM FEW050 22/10 A2992 RMK AO2"
  = Ok ("Decoded METAR:" ++ nl ++ nl
        ++ "Type: Routine observation" ++ nl
        ++ "Station: KDEN" ++ nl
        ++ "Observation Time: Day 12, 16:52 UTC" ++ nl
        ++ "Wind: 270° at 15 knots gusting to 25 knots" ++ nl
        ++ "Visibility: 10SM" ++ nl
        ++ "Clouds: Few at 5000 ft" ++ nl
        ++ "Temperature: 22°C, Dewpoint: 10°C" ++ nl
        ++ "Altimeter: 29.92 inHg" ++ nl
        ++ "Remarks: AO2" ++ nl).
Proof. reflexivity. Qed.

End Decoder.

(** ** The ceiling and the VFR minimums *)

Section Ceiling.

Import Service Analysis.

Lemma lowestCeiling_snoc (layers : list CloudLayer) (cloud : CloudLayer) :
  lowestCeiling (layers ++ [cloud]) = ceilingStep (lowestCeiling layers) cloud.
Proof. unfold lowestCeiling. now rewrite fold_left_app. Qed.

(** The ceiling is the lowest of the broken or overcast layers that carry
    a truthy altitude: it is the altitude of one of them and none of them is
    below it; there is no ceiling exactly when there is no such layer (a
    layer at 0 ft, or with a [NaN] altitude, is passed over). *)
Theorem lowestCeiling_lowest (layers : list CloudLayer) :
  match lowestCeiling layers with
  | Some c =>
      (exists cloud, In cloud layers /\ isCeilingLayer cloud = true
                     /\ altitude cloud = Some c) /\
      (forall cloud a, In cloud layers -> isCeilingLayer cloud = true ->
                       altitude cloud = Some a -> js_lt a c = false)
  | None => forall cloud, In cloud layers -> isCeilingLayer cloud = false
  end.
Proof.
  induction layers as [|x layers IH] using rev_ind; [intros cloud []|].
  rewrite lowestCeiling_snoc.
  pose proof (@lowestCeiling_truthy layers) as T.
  unfold ceilingStep. fold (isCeilingLayer x).
  destruct (isCeilingLayer x) eqn:C.
  - assert (exists a, altitude x = Some a) as (a & A).
    { unfold isCeilingLayer in C. apply andb_true_iff in C.
      destruct C as (_ & C). destruct (altitude x); [eauto | discriminate]. }
    rewrite A.
    destruct (lowestCeiling layers) as [c|].
    + rewrite (T c eq_refl). cbn [negb orb].
      destruct IH as ((y & Hy & Cy & Ay) & Low).
      destruct (js_lt a c) eqn:L.
      * split.
        { exists x. rewrite in_app_iff. simpl. auto. }
        intros cloud a0 Hin Cc Ac. apply in_app_iff in Hin.
        destruct Hin as [Hin | [<- | []]].
        -- destruct (js_lt a0 a) eqn:L0; trivial.
           pose proof (Low cloud a0 Hin Cc Ac) as F.
           pose proof (js_lt_trans _ _ _ L0 L) as G. congruence.
        -- rewrite A in Ac. inversion Ac; subst. apply js_lt_irrefl.
      * split.
        { exists y. rewrite in_app_iff. auto. }
        intros cloud a0 Hin Cc Ac. apply in_app_iff in Hin.
        destruct Hin as [Hin | [<- | []]]; [eauto|].
        rewrite A in Ac. now inversion Ac; subst.
    + split.
      { exists x. rewrite in_app_iff. simpl. auto. }
      intros cloud a0 Hin Cc Ac. apply in_app_iff in Hin.
      destruct Hin as [Hin | [<- | []]].
      * rewrite (IH cloud Hin) in Cc. discriminate.
      * rewrite A in Ac. inversion Ac; subst. apply js_lt_irrefl.
  - destruct (lowestCeiling layers) as [c|].
    + destruct IH as ((y & Hy & Cy & Ay) & Low). split.
      { exists y. rewrite in_app_iff. auto. }
      intros cloud a0 Hin Cc Ac. apply in_app_iff in Hin.
      destruct Hin as [Hin | [<- | []]]; [eauto|].
      rewrite C in Cc. discriminate.
    + intros cloud Hin. apply in_app_iff in Hin.
      destruct Hin as [Hin | [<- | []]]; auto.
Qed.

Lemma truthy_lt_mono (x : option JsNum) (k k' : Q) :
  (k < k')%Q -> truthy_lt x k = true -> truthy_lt x k' = true.
Proof.
  destruct x as [n|]; simpl; trivial. intros K H.
  apply andb_true_iff in H. destruct H as (-> & H). simpl.
  apply js_lt_trans with (Fin k); trivial. now apply js_lt_Fin.
Qed.

Lemma truthyCategory_VFR (c v : option JsNum) :
  truthyCategory c v = VFR
  <-> truthy_lt c 3000 = false /\ truthy_lt v 5 = false.
Proof.
  unfold truthyCategory.
  pose proof (@truthy_lt_mono c 500 3000 eq_refl) as C1.
  pose proof (@truthy_lt_mono c 1000 3000 eq_refl) as C2.
  pose proof (@truthy_lt_mono v 1 5 eq_refl) as V1.
  pose proof (@truthy_lt_mono v 3 5 eq_refl) as V2.
  destruct (truthy_lt c 500), (truthy_lt c 1000), (truthy_lt c 3000),
    (truthy_lt v 1), (truthy_lt v 3), (truthy_lt v 5); simpl;
    split; intros H; try discriminate; auto;
    try (destruct H; discriminate);
    try (specialize (C1 eq_refl); discriminate);
    try (specialize (C2 eq_refl); discriminate);
    try (specialize (V1 eq_refl); discriminate);
    try (specialize (V2 eq_refl); discriminate).
Qed.

Lemma checkVfrMinimums_meets (show : JsNum -> string) (m : MetarData)
      (minCeiling minVisibility : Q) :
  VfrCheck.meets (checkVfrMinimums show m (Fin minCeiling) (Fin minVisibility))
  = negb (truthy_lt (lowestCeiling (clouds m)) minCeiling)
    && negb (truthy_lt (visibility m) minVisibility).
Proof.
  unfold checkVfrMinimums, truthy_lt. cbn [VfrCheck.meets].
  destruct (lowestCeiling (clouds m)) as [c|];
    [destruct (truthy_num c && js_lt c (Fin minCeiling))|];
    (destruct (visibility m) as [v|];
     [destruct (truthy_num v && js_lt v (Fin minVisibility))|]);
    reflexivity.
Qed.

Lemma embedded_category_truthy (data : JsValue) (m : MetarData) :
  parseMetarResponse data = Ok m ->
  truthy (field data "clouds") = true
  \/ truthy (field data "skyCondition") = false ->
  flightCategory m
  = Some (truthyCategory (lowestCeiling (clouds m)) (visibility m)).
Proof.
  intros E Hc.
  destruct (@parseMetarResponse_fields _ _ E) as (N & _ & C1 & cl & C2 & ->).
  assert (S : field data "clouds" ||| field data "skyCondition" ||| JsArray []
              = field data "clouds" ||| JsArray []).
  { unfold js_or. destruct Hc as [Hc | Hs].
    - rewrite Hc. cbv iota. now rewrite Hc.
    - destruct (truthy (field data "clouds")) eqn:T; cbv iota;
        rewrite ?T, ?Hs; reflexivity. }
  rewrite S, C2 in C1. now inversion C1.
Qed.

(** The VFR-minimums check and the embedded flight category agree: for an
    observation mapped from a record whose layers come under [clouds], the
    check with the default minimums (3000 ft, 5 SM) is met exactly when the
    embedded category is VFR. *)
Theorem checkVfrMinimums_default_iff_VFR
        (show : JsNum -> string) (data : JsValue) (m : MetarData) :
  parseMetarResponse data = Ok m ->
  truthy (field data "clouds") = true
  \/ truthy (field data "skyCondition") = false ->
  (VfrCheck.meets (checkVfrMinimums show m (Fin 3000) (Fin 5)) = true
   <-> flightCategory m = Some VFR).
Proof.
  intros E Hc. rewrite (embedded_category_truthy _ E Hc).
  rewrite checkVfrMinimums_meets, andb_true_iff, !negb_true_iff.
  rewrite <- truthyCategory_VFR. split; [now intros -> | congruence].
Qed.

Lemma checkVfrMinimums_default_iff_VFR_witness :
  exists m,
    parseMetarResponse kdenRecord = Ok m /\
    (VfrCheck.meets (checkVfrMinimums (fun _ => "n") m (Fin 3000) (Fin 5)) = true
     <-> flightCategory m = Some VFR).
Proof.
  eexists. split; [reflexivity|].
  apply (@checkVfrMinimums_default_iff_VFR (fun _ => "n") kdenRecord);
    [reflexivity | left; reflexivity].
Defined.

Lemma truthy_lt_le (x : option JsNum) (k k' : Q) :
  (k <= k')%Q -> truthy_lt x k = true -> truthy_lt x k' = true.
Proof.
  destruct x as [n|]; simpl; trivial. intros K H.
  apply andb_true_iff in H. destruct H as (-> & H). simpl.
  destruct n as [| | |q]; simpl in *; trivial.
  rewrite Qltb_lt in *. now apply Qlt_le_trans with k.
Qed.

(** Relaxing the minimums never turns a pass into a fail: an observation
    that meets a ceiling and a visibility minimum meets every lower pair. *)
Theorem checkVfrMinimums_relaxed
        (show : JsNum -> string) (m : MetarData)
        (minCeiling minVisibility minCeiling' minVisibility' : Q) :
  (minCeiling' <= minCeiling)%Q ->
  (minVisibility' <= minVisibility)%Q ->
  VfrCheck.meets
    (checkVfrMinimums show m (Fin minCeiling) (Fin minVisibility)) = true ->
  VfrCheck.meets
    (checkVfrMinimums show m (Fin minCeiling') (Fin minVisibility')) = true.
Proof.
  intros Hc Hv. rewrite !checkVfrMinimums_meets, !andb_true_iff, !negb_true_iff.
  intros (C & V). split.
  - destruct (truthy_lt (lowestCeiling (clouds m)) minCeiling') eqn:E; trivial.
    now rewrite (truthy_lt_le _ Hc E) in C.
  - destruct (truthy_lt (visibility m) minVisibility') eqn:E; trivial.
    now rewrite (truthy_lt_le _ Hv E) in V.
Qed.

Lemma checkVfrMinimums_relaxed_witness :
  exists m,
    parseMetarResponse kdenRecord = Ok m /\
    VfrCheck.meets (checkVfrMinimums (fun _ => "n") m (Fin 1000) (Fin 3)) = true.
Proof.
  eexists. split; [reflexivity|].
  apply (@checkVfrMinimums_relaxed (fun _ => "n") _ 3000 5 1000 3);
    [discriminate | discriminate | reflexivity].
Defined.

End Ceiling.

(** ** Which records the mappings accept *)

Section Acceptance.

Import Service.

Lemma parseClouds_ok_iff (v : JsValue) :
  (exists layers, parseClouds v = Ok layers) <-> cloudsWellFormed v.
Proof.
  unfold cloudsWellFormed.
  destruct v as [| | | | |items|];
    try (simpl; split; [intros _ items E; discriminate E | eauto]).
  rewrite parseClouds_array_ok_iff. split.
  - intros H items' E. now inversion E; subst.
  - intros H. now apply H.
Qed.

Lemma parseMetarResponse_ok_iff (d : JsValue) :
  (exists m, parseMetarResponse d = Ok m) <-> metarWellFormed d.
Proof.
  unfold metarWellFormed, allConvertible. rewrite !Forall_cons_iff. split.
  - intros (m & E). unfold parseMetarResponse in E.
    destruct (nullish d) eqn:N; [discriminate|].
    rewrite (determineFlightCategory_truthyCategory _ N) in E.
    unfold parseFloat, parseInt in E.
    destruct (convertible (field d "temp")) eqn:C1; [|discriminate].
    destruct (convertible (field d "dewp")) eqn:C2; [|discriminate].
    destruct (convertible (field d "wdir")) eqn:C3; [|discriminate].
    destruct (convertible (field d "wspd")) eqn:C4; [|discriminate].
    destruct (convertible (field d "wgst")) eqn:C5; [|discriminate].
    cbn [bind] in E.
    destruct (parseVisibility (field d "visib")) as [vis|e] eqn:V;
      [|discriminate].
    cbn [bind] in E.
    destruct (convertible (field d "altim")) eqn:C7; [|discriminate].
    cbn [bind] in E.
    destruct (parseClouds
                (field d "clouds" ||| field d "skyCondition" ||| JsArray []))
      as [cl|e] eqn:P1; [|discriminate].
    cbn [bind] in E.
    destruct (parseClouds (field d "clouds" ||| JsArray []))
      as [cl2|e] eqn:P2; [|discriminate].
    assert (C6 : convertible (field d "visib") = true)
      by (apply parseVisibility_ok_iff; eauto).
    repeat split; trivial; apply parseClouds_ok_iff; eauto.
  - intros (N & (C1 & C2 & C3 & C4 & C5 & C6 & C7 & _) & K1 & K2).
    apply parseVisibility_ok_iff in C6. destruct C6 as (vis & V).
    apply parseClouds_ok_iff in K1, K2.
    destruct K1 as (cl & P1), K2 as (cl2 & P2).
    unfold parseMetarResponse.
    rewrite N, (determineFlightCategory_truthyCategory _ N).
    unfold parseFloat, parseInt.
    rewrite C1, C2, C3, C4, C5, C7. cbn [bind]. rewrite V. cbn [bind].
    rewrite P1. cbn [bind]. rewrite P2. cbn [bind]. eauto.
Qed.

(** An observation record is mapped without an exception exactly when it
    is neither [null] nor [undefined], its [temp], [dewp], [wdir], [wspd],
    [wgst], [visib] and [altim] have a string, and neither of the two layer
    arrays it is parsed from holds an entry that is [null] or whose base
    has no string; a batch is mapped exactly when it is an array of such
    records, and then one observation per record comes back.  Data that is
    not an array throws INVALID_RESPONSE. *)
Theorem getMetar_ok_iff (data : JsValue) :
  ((exists out, getMetar data = Ok out)
   <-> exists items, data = JsArray items /\ Forall metarWellFormed items) /\
  (forall items out, getMetar (JsArray items) = Ok out ->
                     List.length out = List.length items) /\
  ((forall items, data <> JsArray items) ->
   getMetar data
   = Throw (WeatherError "INVALID_RESPONSE" "Expected array of METAR data")).
Proof.
  split; [|split].
  - destruct data as [| | | | |items|];
      try (split; [intros (o & E); discriminate
                  | intros (i & E & _); discriminate]).
    simpl. rewrite mapM_ok_iff. split.
    + intros H. exists items. split; trivial.
      eapply Forall_impl; [|exact H]. intros d. apply parseMetarResponse_ok_iff.
    + intros (i & E & H). inversion E; subst.
      eapply Forall_impl; [|exact H]. intros d. apply parseMetarResponse_ok_iff.
  - intros items out. simpl. apply mapM_length.
  - intros H. destruct data as [| | | | |items|]; try reflexivity.
    now destruct (H items).
Qed.

Lemma batch_ok_iff {A : Type} (f : JsValue -> Res A) (P : JsValue -> Prop)
      (err : JsError) (data : JsValue) :
  (forall d, (exists a, f d = Ok a) <-> P d) ->
  (exists out,
     match data with
     | JsArray items => mapM f items
     | _ => Throw err
     end = Ok out)
  <-> exists items, data = JsArray items /\ Forall P items.
Proof.
  intros R.
  destruct data as [| | | | |items|];
    try (split; [intros (o & E); discriminate
                | intros (i & E & _); discriminate]).
  rewrite mapM_ok_iff. split.
  - intros H. exists items. split; trivial.
    eapply Forall_impl; [|exact H]. intros d. apply R.
  - intros (i & E & H). inversion E; subst.
    eapply Forall_impl; [|exact H]. intros d. apply R.
Qed.

Lemma onString_ok_iff {A : Type} (method : string -> A) (v : JsValue) :
  (exists a, onString method v = Ok a) <-> exists s, v = JsString s.
Proof.
  destruct v; simpl; split; intros (x & E); try discriminate; eauto.
Qed.

Lemma parseAirmetResponse_ok_iff (d : JsValue) :
  (exists a, parseAirmetResponse d = Ok a) <-> airmetWellFormed d.
Proof.
  unfold airmetWellFormed, parseAirmetResponse.
  rewrite <- (onString_ok_iff parseHazardType).
  destruct (nullish d).
  - split; [intros (a & E); discriminate | intros (F & _); discriminate].
  - destruct (onString parseHazardType
                (field d "hazard" ||| field d "hazardType")) as [h|e];
      cbn [bind]; split; eauto.
    + intros (a & E). discriminate.
    + intros (_ & a & E). discriminate.
Qed.

(** An advisory record is mapped without an exception exactly when it is
    not [null] and its [hazard] (or, failing that, its [hazardType]) is a
    string: a record with neither key makes the mapping throw.  A batch is
    mapped exactly when it is an array of such records. *)
Theorem getAirmets_ok_iff (data : JsValue) :
  ((exists out, getAirmets data = Ok out)
   <-> exists items, data = JsArray items /\ Forall airmetWellFormed items) /\
  (forall items out, getAirmets (JsArray items) = Ok out ->
                     List.length out = List.length items) /\
  (forall d, nullish d = false ->
             truthy (field d "hazard") = false ->
             field d "hazardType" = JsUndefined ->
             exists message, parseAirmetResponse d = Throw (TypeError message)).
Proof.
  split; [|split].
  - apply batch_ok_iff. exact parseAirmetResponse_ok_iff.
  - intros items out. simpl. apply mapM_length.
  - intros d N H T. unfold parseAirmetResponse, js_or.
    rewrite N, H, T. cbn [onString bind]. eexists. reflexivity.
Qed.

Lemma intensity_step_ok_iff {A : Type} (method : string -> A) (v : JsValue) :
  (exists r, (if truthy v then t <- onString method v ;; Ok (Some t)
              else Ok None) = Ok r)
  <-> falsyOrString v.
Proof.
  unfold falsyOrString. destruct (truthy v) eqn:T.
  - split.
    + intros (r & E). right. apply (onString_ok_iff method).
      destruct (onString method v); [eauto | discriminate].
    + intros [F | S]; [discriminate|].
      apply (onString_ok_iff method) in S. destruct S as (a & ->).
      cbn [bind]. eauto.
  - split; eauto.
Qed.

Lemma parsePirepResponse_ok_iff (d : JsValue) :
  (exists p, parsePirepResponse d = Ok p) <-> pirepWellFormed d.
Proof.
  unfold pirepWellFormed, parsePirepResponse.
  rewrite guarded_parseInt.
  rewrite <- (intensity_step_ok_iff parseTurbulenceIntensity),
          <- (intensity_step_ok_iff parseIcingIntensity).
  destruct (nullish d).
  - split; [intros (a & E); discriminate | intros (F & _); discriminate].
  - destruct (convertible (field d "altitude")); cbn [bind];
      [|split; [intros (a & E); discriminate
               | intros (_ & F & _); discriminate]].
    destruct (if truthy (field d "turbulence") then _ else _) as [t|e];
      cbn [bind];
      destruct (if truthy (field d "icing") then _ else _) as [i|e2];
      cbn [bind]; split;
      try (intros (a & E); discriminate);
      try (intros (_ & _ & (a & E) & (b & E2)); discriminate);
      eauto 8.
Qed.

(** A pilot report is mapped without an exception exactly when it is
    neither [null] nor [undefined], its [altitude] has a string, and its
    [turbulence] and [icing] are each falsy or a string; a batch is mapped
    exactly when it is an array of such records, and data that is not an
    array throws INVALID_RESPONSE.  A mapped report carries a turbulence
    (icing) intensity exactly when the record's [turbulence] ([icing]) is
    truthy. *)
Theorem getPireps_ok_iff (data : JsValue) :
  ((exists out, getPireps data = Ok out)
   <-> exists items, data = JsArray items /\ Forall pirepWellFormed items) /\
  (forall items out, getPireps (JsArray items) = Ok out ->
                     List.length out = List.length items) /\
  ((forall items, data <> JsArray items) ->
   getPireps data
   = Throw (WeatherError "INVALID_RESPONSE" "Expected array of PIREP data")) /\
  (forall d p, parsePirepResponse d = Ok p ->
     (Pirep.turbulence p <> None <-> truthy (field d "turbulence") = true) /\
     (Pirep.icing p <> None <-> truthy (field d "icing") = true)).
Proof.
  split; [|split; [|split]].
  - apply batch_ok_iff. exact parsePirepResponse_ok_iff.
  - intros items out. simpl. apply mapM_length.
  - intros H. destruct data as [| | | | |items|]; try reflexivity.
    now destruct (H items).
  - intros d p. unfold parsePirepResponse.
    destruct (nullish d); [discriminate|].
    rewrite guarded_parseInt.
    destruct (convertible (field d "altitude")); [|discriminate].
    cbn [bind].
    destruct (truthy (field d "turbulence"));
      [destruct (onString parseTurbulenceIntensity (field d "turbulence"));
       [|discriminate]|];
      cbn [bind];
      (destruct (truthy (field d "icing"));
       [destruct (onString parseIcingIntensity (field d "icing"));
        [|discriminate]|]);
      cbn [bind]; intros E; inversion E; subst; cbn;
      split; split; congruence.
Qed.

Lemma parseTafForecast_ok_iff (fc : JsValue) :
  (exists x, parseTafForecast fc = Ok x) <-> forecastWellFormed fc.
Proof.
  unfold forecastWellFormed, allConvertible. rewrite !Forall_cons_iff.
  unfold parseTafForecast, parseInt. split.
  - intros (x & E).
    destruct (nullish fc); [discriminate|].
    destruct (convertible (field fc "wdir")) eqn:C1; [|discriminate].
    destruct (convertible (field fc "wspd")) eqn:C2; [|discriminate].
    destruct (convertible (field fc "wgst")) eqn:C3; [|discriminate].
    cbn [bind] in E.
    destruct (parseVisibility (field fc "visib")) as [vis|e] eqn:V;
      [|discriminate].
    cbn [bind] in E.
    destruct (parseClouds
                (field fc "clouds" ||| field fc "skyCondition" ||| JsArray []))
      as [cl|e] eqn:P; [|discriminate].
    assert (C4 : convertible (field fc "visib") = true)
      by (apply parseVisibility_ok_iff; eauto).
    repeat split; trivial. apply parseClouds_ok_iff. eauto.
  - intros (N & (C1 & C2 & C3 & C4 & _) & K).
    apply parseVisibility_ok_iff in C4. destruct C4 as (vis & V).
    apply parseClouds_ok_iff in K. destruct K as (cl & P).
    rewrite N, C1, C2, C3. cbn [bind]. rewrite V. cbn [bind].
    rewrite P. cbn [bind]. eauto.
Qed.

Lemma parseTafResponse_ok_iff (d : JsValue) :
  (exists t, parseTafResponse d = Ok t) <-> tafWellFormed d.
Proof.
  unfold tafWellFormed, parseTafResponse.
  destruct (nullish d).
  - split; [intros (a & E); discriminate | intros (F & _); discriminate].
  - set (F := field d "forecast" ||| field d "fcsts").
    destruct (truthy F) eqn:T.
    + destruct F as [| | | | |items|] eqn:EF; cbn [bind];
        try (split;
             [intros (a & E); discriminate
             | intros (_ & [X | (i & X & _)]); discriminate]).
      split.
      * intros (t & E). split; trivial. right. exists items. split; trivial.
        assert (M : exists fs, mapM parseTafForecast items = Ok fs)
          by (destruct (mapM parseTafForecast items); [eauto | discriminate]).
        apply mapM_ok_iff in M. eapply Forall_impl; [|exact M].
        intros fc. apply parseTafForecast_ok_iff.
      * intros (_ & [X | (i & X & H)]); [discriminate|].
        inversion X; subst.
        assert (M : exists fs, mapM parseTafForecast i = Ok fs).
        { apply mapM_ok_iff. eapply Forall_impl; [|exact H].
          intros fc. apply parseTafForecast_ok_iff. }
        destruct M as (fs & ->). cbn [bind]. eauto.
    + cbn [bind]. split; eauto.
Qed.

(** A forecast record is mapped without an exception exactly when it is
    neither [null] nor [undefined] and its [forecast] (or, failing that,
    [fcsts]) is falsy or an array of entries that are not [null], whose
    [wdir], [wspd], [wgst] and [visib] have a string, and whose cloud
    entries are not [null] and have a base with a string; a truthy value
    that is not an array makes the mapping throw.  Data that is not an
    array throws INVALID_RESPONSE.  The mapped forecast has one period per
    entry, none when the key is missing. *)
Theorem getTaf_ok_iff (data : JsValue) :
  ((exists out, getTaf data = Ok out)
   <-> exists items, data = JsArray items /\ Forall tafWellFormed items) /\
  (forall items out, getTaf (JsArray items) = Ok out ->
                     List.length out = List.length items) /\
  ((forall items, data <> JsArray items) ->
   getTaf data
   = Throw (WeatherError "INVALID_RESPONSE" "Expected array of TAF data")) /\
  (forall d t, parseTafResponse d = Ok t ->
     (truthy (field d "forecast" ||| field d "fcsts") = false ->
      Taf.forecasts t = []) /\
     (forall entries,
        field d "forecast" ||| field d "fcsts" = JsArray entries ->
        List.length (Taf.forecasts t) = List.length entries)).
Proof.
  split; [|split; [|split]].
  - apply batch_ok_iff. exact parseTafResponse_ok_iff.
  - intros items out. simpl. apply mapM_length.
  - intros H. destruct data as [| | | | |items|]; try reflexivity.
    now destruct (H items).
  - intros d t. unfold parseTafResponse.
    destruct (nullish d); [discriminate|].
    set (F := field d "forecast" ||| field d "fcsts").
    destruct (truthy F) eqn:T.
    + destruct F as [| | | | |items|] eqn:EF; cbn [bind];
        try discriminate.
      destruct (mapM parseTafForecast items) as [fs|e] eqn:M;
        [|discriminate].
      cbn [bind]. intros E. inversion E; subst. cbn [Taf.forecasts].
      split; [discriminate|].
      intros entries X. inversion X; subst.
      now apply mapM_length with (f := parseTafForecast).
    + cbn [bind]. intros E. inversion E; subst. cbn [Taf.forecasts].
      split; trivial. intros entries X.
      rewrite X in T. discriminate.
Qed.

End Acceptance.

(** ** Hazard types *)

Section Hazards.

Import Service.

(** The hazard type of an advisory, by the tokens that occur in it (letter
    case ignored).  IFR is both what the token IFR yields and the default:
    it is returned exactly when IFR occurs or none of MOUNTAIN, MTN, TURB,
    ICE, ICING and WIND does; SHEAR without WIND falls to the default. *)
Theorem parseHazardType_table (value : string) :
  let o := fun token => occurs token value in
  let r := parseHazardType value in
  (r = Airmet.IFR
   <-> o "IFR" \/ ~ (o "MOUNTAIN" \/ o "MTN" \/ o "TURB" \/ o "ICE"
                     \/ o "ICING" \/ o "WIND")) /\
  (r = Airmet.MOUNTAIN_OBSCURATION
   <-> ~ o "IFR" /\ (o "MOUNTAIN" \/ o "MTN")) /\
  (r = Airmet.TURBULENCE
   <-> ~ o "IFR" /\ ~ o "MOUNTAIN" /\ ~ o "MTN" /\ o "TURB") /\
  (r = Airmet.ICING
   <-> ~ o "IFR" /\ ~ o "MOUNTAIN" /\ ~ o "MTN" /\ ~ o "TURB"
       /\ (o "ICE" \/ o "ICING")) /\
  (r = Airmet.LOW_LEVEL_WIND_SHEAR
   <-> ~ o "IFR" /\ ~ o "MOUNTAIN" /\ ~ o "MTN" /\ ~ o "TURB" /\ ~ o "ICE"
       /\ ~ o "ICING" /\ o "WIND" /\ o "SHEAR") /\
  (r = Airmet.STRONG_SURFACE_WINDS
   <-> ~ o "IFR" /\ ~ o "MOUNTAIN" /\ ~ o "MTN" /\ ~ o "TURB" /\ ~ o "ICE"
       /\ ~ o "ICING" /\ o "WIND" /\ ~ o "SHEAR").
Proof.
  cbv zeta. unfold occurs, parseHazardType.
  destruct (includes (toUpperCase value) "IFR"),
    (includes (toUpperCase value) "MOUNTAIN"),
    (includes (toUpperCase value) "MTN"),
    (includes (toUpperCase value) "TURB"),
    (includes (toUpperCase value) "ICE"),
    (includes (toUpperCase value) "ICING"),
    (includes (toUpperCase value) "WIND"),
    (includes (toUpperCase value) "SHEAR");
    cbn [orb andb]; repeat apply conj; intros H;
    try discriminate H; try reflexivity; intuition congruence.
Qed.

End Hazards.

(** ** The station list of a request *)

Section StationList.

Import Service.

Lemma upperChar_idempotent (c : ascii) : upperChar (upperChar c) = upperChar c.
Proof. destruct c as [[] [] [] [] [] [] [] []]; reflexivity. Qed.

Lemma toUpperCase_idempotent (s : string) :
  toUpperCase (toUpperCase s) = toUpperCase s.
Proof.
  induction s as [|c t IH]; simpl; [|rewrite IH, upperChar_idempotent];
    reflexivity.
Qed.

Lemma isWhitespace_upperChar (c : ascii) :
  isWhitespace (upperChar c) = isWhitespace c.
Proof. destruct c as [[] [] [] [] [] [] [] []]; reflexivity. Qed.

Lemma comma_upperChar (c : ascii) :
  Ascii.eqb (upperChar c) "," = Ascii.eqb c ",".
Proof. destruct c as [[] [] [] [] [] [] [] []]; reflexivity. Qed.

Lemma trimStart_toUpperCase (s : string) :
  trimStart (toUpperCase s) = toUpperCase (trimStart s).
Proof.
  induction s as [|c t IH]; simpl; trivial.
  rewrite isWhitespace_upperChar. now destruct (isWhitespace c).
Qed.

Lemma trimEnd_toUpperCase (s : string) :
  trimEnd (toUpperCase s) = toUpperCase (trimEnd s).
Proof.
  induction s as [|c t IH]; simpl; trivial.
  rewrite IH, isWhitespace_upperChar.
  destruct (trimEnd t); simpl; trivial. now destruct (isWhitespace c).
Qed.

Lemma trim_toUpperCase (s : string) :
  trim (toUpperCase s) = toUpperCase (trim s).
Proof. unfold trim. now rewrite trimStart_toUpperCase, trimEnd_toUpperCase. Qed.

Lemma clean_idempotent (s : string) :
  toUpperCase (trim (toUpperCase (trim s))) = toUpperCase (trim s).
Proof. now rewrite trim_toUpperCase, trim_idempotent, toUpperCase_idempotent. Qed.

Lemma has_comma_toUpperCase (s : string) :
  has "," (toUpperCase s) = has "," s.
Proof.
  induction s as [|c t IH]; simpl; trivial. now rewrite IH, comma_upperChar.
Qed.

Lemma split_char_append (sep : ascii) (a t : string) :
  has sep a = false ->
  split_char sep (a ++ String sep t) = a :: split_char sep t.
Proof.
  induction a as [|c a IH]; simpl; intros H.
  - now rewrite Ascii.eqb_refl.
  - apply orb_false_iff in H. destruct H as (H1 & H2).
    now rewrite H1, (IH H2).
Qed.

(** Splitting what [join] made gives the pieces back. *)
Lemma split_char_join (sep : ascii) (l : list string) :
  l <> [] ->
  Forall (fun piece => has sep piece = false) l ->
  split_char sep (join (String sep "") l) = l.
Proof.
  induction l as [|a l IH]; [congruence|]. intros _ F.
  inversion F as [|? ? Ha Hl]; subst.
  destruct l as [|b l].
  - now apply split_char_single.
  - change (join (String sep "") (a :: b :: l))
      with (a ++ String sep (join (String sep "") (b :: l))).
    rewrite (@split_char_append _ _ _ Ha), IH; trivial. discriminate.
Qed.

Lemma clean_pieces (l : list string) :
  Forall (fun piece => has "," piece = false) l ->
  Forall (fun piece => has "," piece = false)
    (map (fun s => toUpperCase (trim s)) l).
Proof.
  intros F. apply Forall_map. revert F. apply Forall_impl. intros s H.
  rewrite has_comma_toUpperCase. now apply has_trimEnd, has_trimStart.
Qed.

(** The cleaned station list is a fixed point of the cleaning: given back
    as the [stations] string it yields itself. *)
Theorem stationList_idempotent (stations : string) :
  stationList (StationString (stationList (StationString stations)))
  = stationList (StationString stations).
Proof.
  cbn [stationList].
  destruct (split_char_cons "," stations) as (rest & E).
  rewrite split_char_join.
  - rewrite map_map. f_equal. apply map_ext. intros s. apply clean_idempotent.
  - rewrite E. discriminate.
  - apply clean_pieces, split_char_pieces.
Qed.

(** Identifiers without a comma give the same request whether they are
    passed as an array or in one string, separated by commas. *)
Theorem stationList_array_string (l : list string) :
  Forall (fun s => has "," s = false) l ->
  stationList (StationString (join "," l)) = stationList (StationArray l).
Proof.
  intros F. destruct l as [|a l]; [reflexivity|].
  cbn [stationList]. rewrite split_char_join; trivial. discriminate.
Qed.

Lemma stationList_array_string_witness :
  stationList (StationString "kden, klas ") = stationList (StationArray ["kden"; " klas "]).
Proof.
  apply (@stationList_array_string ["kden"; " klas "]).
  repeat constructor.
Defined.

End StationList.

(** ** Forecasts in raw text *)

(** *** The denotation of a pattern, continued *)

Lemma Matches_nullable (r : Re) (s : string) :
  Matches r s -> s = "" -> nullable r = true.
Proof.
  induction 1 as [|p d Hp|a b s1 s2 Ha IHa Hb IHb|a b s0 Ha IHa|a b s0 Hb IHb
                 |a|a s1 s2 Ha IHa Hs IHs]; intros E; simpl; trivial.
  - discriminate.
  - destruct s1; [|discriminate]. simpl in E. now rewrite IHa, IHb.
  - now rewrite IHa.
  - rewrite IHb; auto using orb_true_r.
Qed.

Lemma Matches_deriv (r : Re) (w : string) :
  Matches r w -> forall c s, w = String c s -> Matches (deriv c r) s.
Proof.
  induction 1 as [|p d Hp|a b s1 s2 Ha IHa Hb IHb|a b s0 Ha IHa|a b s0 Hb IHb
                 |a|a s1 s2 Ha IHa Hs IHs]; intros c s E; simpl.
  - discriminate.
  - inversion E; subst. rewrite Hp. constructor.
  - destruct s1 as [|x s1]; simpl in E.
    + rewrite (@Matches_nullable _ _ Ha eq_refl). apply MAltR. eauto.
    + inversion E; subst.
      assert (M : Matches (Seq (deriv c a) b) (s1 ++ s2))
        by (constructor; eauto).
      destruct (nullable a); [apply MAltL|]; exact M.
  - apply MAltL; eauto.
  - apply MAltR; eauto.
  - discriminate.
  - destruct s1 as [|x s1]; simpl in E.
    + exact (IHs _ _ E).
    + inversion E; subst. constructor; eauto.
Qed.

(** The matcher is complete for the denotation. *)
Lemma Matches_test (s : string) : forall r, Matches r s -> test r s = true.
Proof.
  induction s as [|c s IH]; intros r H; simpl.
  - now apply (@Matches_nullable _ _ H).
  - apply IH. now apply (@Matches_deriv _ _ H).
Qed.

Lemma Matches_seq (a b : Re) (s : string) :
  Matches (Seq a b) s ->
  exists s1 s2, s = s1 ++ s2 /\ Matches a s1 /\ Matches b s2.
Proof. inversion 1; subst; eauto. Qed.

Lemma Matches_alt (a b : Re) (s : string) :
  Matches (Alt a b) s -> Matches a s \/ Matches b s.
Proof. inversion 1; subst; auto. Qed.

Lemma Matches_eps (s : string) : Matches Eps s -> s = "".
Proof. now inversion 1. Qed.

Lemma Matches_chr (p : ascii -> bool) (s : string) :
  Matches (Chr p) s -> exists c, s = String c "" /\ p c = true.
Proof. inversion 1; subst; eauto. Qed.

Lemma Matches_word (t : string) : forall s, Matches (word t) s -> s = t.
Proof.
  induction t as [|c t IH]; simpl; intros s H.
  - now apply Matches_eps.
  - apply Matches_seq in H. destruct H as (s1 & s2 & -> & H1 & H2).
    apply Matches_lit in H1. subst. simpl. f_equal. auto.
Qed.

Lemma Matches_any (s : string) : Matches (Star anyChar) s.
Proof.
  induction s as [|c s IH]; [constructor|].
  change (String c s) with (String c "" ++ s).
  constructor; trivial. now constructor.
Qed.

Lemma Matches_four_upper (u : string) :
  Matches (times 4 upper) u ->
  exists a b c d,
    u = String a (String b (String c (String d ""))) /\
    isUpper a = true /\ isUpper b = true /\
    isUpper c = true /\ isUpper d = true.
Proof.
  cbn [times]. intros H.
  apply Matches_seq in H. destruct H as (s1 & r1 & -> & H1 & H).
  apply Matches_seq in H. destruct H as (s2 & r2 & -> & H2 & H).
  apply Matches_seq in H. destruct H as (s3 & r3 & -> & H3 & H).
  apply Matches_seq in H. destruct H as (s4 & r4 & -> & H4 & H).
  apply Matches_eps in H. subst.
  apply Matches_chr in H1, H2, H3, H4.
  destruct H1 as (a & -> & Ha), H2 as (b & -> & Hb),
           H3 as (c & -> & Hc), H4 as (d & -> & Hd).
  exists a, b, c, d. auto.
Qed.

Lemma trimStart_whitespace (w : string) :
  Matches (Star (Chr isWhitespace)) w ->
  forall rest, trimStart (w ++ rest) = trimStart rest.
Proof.
  intros H. remember (Star (Chr isWhitespace)) as r eqn:Er.
  induction H as [|p d Hp|a b s1 s2 Ha IHa Hb IHb|a b s0 Ha IHa|a b s0 Hb IHb
                 |a|a s1 s2 Ha IHa Hs IHs]; try discriminate; intros rest.
  - reflexivity.
  - inversion Er; subst.
    apply Matches_chr in Ha. destruct Ha as (c & -> & W).
    simpl. rewrite W. now apply IHs.
Qed.

Lemma isUpper_not_whitespace (c : ascii) :
  isUpper c = true -> isWhitespace c = false.
Proof.
  unfold isUpper, isWhitespace. intros H.
  apply andb_true_iff in H. destruct H as (H1 & H2).
  apply Nat.leb_le in H1, H2.
  apply orb_false_iff. split.
  - apply andb_false_iff. right. apply Nat.leb_gt. lia.
  - apply Nat.eqb_neq. lia.
Qed.

Lemma append_empty_r (s : string) : s ++ "" = s.
Proof. induction s as [|c s IH]; simpl; congruence. Qed.

Lemma has_append (c : ascii) (a b : string) :
  has c (a ++ b) = has c a || has c b.
Proof.
  induction a as [|d a IH]; simpl; trivial. now rewrite IH, orb_assoc.
Qed.

Lemma trimStart_fixed (x : string) :
  trimStart x = x -> x <> "" ->
  exists c x', x = String c x' /\ isWhitespace c = false.
Proof.
  destruct x as [|c t]; [congruence|]. simpl. intros E _.
  destruct (isWhitespace c) eqn:W; [|eauto].
  exfalso.
  assert (L : forall u, String.length (trimStart u) <= String.length u).
  { induction u as [|d u IHu]; simpl; [lia|].
    destruct (isWhitespace d); simpl; lia. }
  specialize (L t). rewrite E in L. simpl in L. lia.
Qed.

Lemma trimEnd_append (a b : string) :
  b <> "" -> trimEnd b = b -> trimEnd (a ++ b) = a ++ b.
Proof.
  intros N E. induction a as [|c a IH]; simpl; trivial.
  rewrite IH. destruct (a ++ b) eqn:A; trivial.
  destruct a; simpl in A; [congruence | discriminate].
Qed.

Lemma trimEnd_after (m : string) (c : ascii) (t : string) :
  isWhitespace c = false ->
  trimEnd (m ++ String c t) = m ++ String c (trimEnd t).
Proof.
  intros W. induction m as [|d m IH]; simpl.
  - destruct (trimEnd t); [rewrite W|]; reflexivity.
  - rewrite IH. now destruct m.
Qed.

Lemma join_cons (sep a : string) (l : list string) :
  exists X, join sep (a :: l) = a ++ X.
Proof.
  destruct l as [|b l]; cbn [join].
  - exists "". now rewrite append_empty_r.
  - eauto.
Qed.

Lemma truthy_str_nonempty (s : string) : truthy_str s = true <-> s <> "".
Proof.
  unfold truthy_str. rewrite negb_true_iff.
  destruct (String.eqb_spec s ""); split; congruence.
Qed.

(** *** Lines that start a forecast *)

Section TafSegmentation.

Import Service.

Lemma tafHead_shape (m : string) :
  Matches tafHeadRe m ->
  exists p u v,
    m = p ++ u ++ v ++ "Z" /\
    (p = "" \/
     exists x w, p = "TAF" ++ String x w /\ isWhitespace x = true /\
                 forall rest, trimStart (w ++ rest) = trimStart rest) /\
    Matches (times 4 upper) u.
Proof.
  unfold tafHeadRe. intros H.
  apply Matches_seq in H. destruct H as (p & r1 & -> & Hp & H).
  apply Matches_seq in H. destruct H as (u & r2 & -> & Hu & H).
  apply Matches_seq in H. destruct H as (sw & r3 & -> & _ & H).
  apply Matches_seq in H. destruct H as (sd & sz & -> & _ & H).
  apply Matches_lit in H. subst sz.
  exists p, u, (sw ++ sd). split; [now rewrite append_assoc|]. split; trivial.
  apply Matches_alt in Hp. destruct Hp as [Hp|Hp].
  - left. now apply Matches_eps.
  - right. apply Matches_seq in Hp. destruct Hp as (t & w & -> & Ht & Hw).
    apply Matches_word in Ht. subst t.
    apply Matches_seq in Hw. destruct Hw as (x & w' & -> & Hx & Hw).
    apply Matches_chr in Hx. destruct Hx as (c & -> & W).
    exists c, w'. repeat split; trivial.
    now apply trimStart_whitespace.
Qed.

Lemma four_upper_prefix (u rest : string) :
  Matches (times 4 upper) u ->
  js_substring 0 4 (u ++ rest) = u /\
  trimStart (u ++ rest) = u ++ rest /\
  match drop 3 (u ++ rest) with
  | String c _ => isWhitespace c
  | EmptyString => false
  end = false.
Proof.
  intros Hu. apply Matches_four_upper in Hu.
  destruct Hu as (a & b & c & d & -> & Ha & Hb & Hc & Hd).
  repeat split.
  - unfold js_substring. simpl. now destruct rest.
  - simpl. now rewrite (@isUpper_not_whitespace _ Ha).
  - simpl. now apply isUpper_not_whitespace.
Qed.

Lemma tafStation_plain (u rest : string) :
  Matches (times 4 upper) u -> tafStation (u ++ rest) = Some u.
Proof.
  intros Hu. destruct (@four_upper_prefix _ rest Hu) as (E1 & _ & E3).
  unfold tafStation.
  now rewrite E3, andb_false_r, E1, (@Matches_test _ _ Hu).
Qed.

(** The station of a forecast is read off the head of its first line. *)
Lemma tafStation_head (m : string) :
  Matches tafHeadRe m ->
  exists u, test (times 4 upper) u = true /\
            forall rest, tafStation (m ++ rest) = Some u.
Proof.
  intros H. apply tafHead_shape in H.
  destruct H as (p & u & v & -> & Hp & Hu).
  exists u. split; [now apply Matches_test|]. intros rest.
  rewrite !append_assoc.
  destruct Hp as [->|(x & w & -> & W & Hw)].
  - apply (@tafStation_plain _ _ Hu).
  - unfold tafStation.
    cbn [append startsWith String.prefix drop].
    repeat match goal with
           | |- context [ascii_dec ?a ?b] =>
               destruct (ascii_dec a b); [|congruence]
           end.
    cbn [andb trimStart]. rewrite W, Hw.
    destruct (@four_upper_prefix _ (v ++ String "Z" rest) Hu) as (E1 & E2 & _).
    now rewrite E2, E1, (@Matches_test _ _ Hu).
Qed.

Lemma tafHead_ends (m : string) :
  Matches tafHeadRe m ->
  (exists m', m = m' ++ "Z") /\
  (exists c m', m = String c m' /\ isWhitespace c = false).
Proof.
  intros H. apply tafHead_shape in H.
  destruct H as (p & u & v & -> & Hp & Hu). split.
  - exists (p ++ u ++ v). now rewrite !append_assoc.
  - apply Matches_four_upper in Hu.
    destruct Hu as (a & b & c & d & -> & Ha & _).
    destruct Hp as [->|(x & w & -> & _)]; simpl; eauto using isUpper_not_whitespace.
Qed.

Lemma tafStart_head (line : string) :
  test tafStartRe line = true ->
  exists m tail,
    line = m ++ tail /\ Matches tafHeadRe m /\ trim line = m ++ trimEnd tail.
Proof.
  intros H. apply test_Matches in H. unfold tafStartRe in H.
  apply Matches_seq in H. destruct H as (m & tail & -> & Hm & _).
  exists m, tail. repeat split; trivial.
  destruct (@tafHead_ends _ Hm) as ((m' & E) & (c & m'' & E' & W)).
  unfold trim.
  replace (trimStart (m ++ tail)) with (m ++ tail)
    by (rewrite E'; simpl; now rewrite W).
  rewrite E, !append_assoc. cbn [append].
  now rewrite trimEnd_after.
Qed.

Lemma tafHead_start (m rest : string) :
  Matches tafHeadRe m -> test tafStartRe (m ++ rest) = true.
Proof.
  intros H. apply Matches_test. unfold tafStartRe.
  constructor; auto using Matches_any.
Qed.

Lemma tafStart_nonblank (line : string) :
  test tafStartRe line = true -> truthy_str (trim line) = true.
Proof.
  intros H. destruct (@tafStart_head _ H) as (m & tail & _ & Hm & ->).
  destruct (@tafHead_ends _ Hm) as (_ & (c & m' & -> & _)). reflexivity.
Qed.

(** *** The segmenter of forecasts *)

Lemma trim_tidy (line : string) :
  has "010" line = false -> truthy_str (trim line) = true -> tidy (trim line).
Proof.
  intros H T. repeat split.
  - now apply truthy_str_nonempty.
  - apply trimStart_trimEnd, trimStart_idempotent.
  - apply trimEnd_idempotent.
  - now apply has_trimEnd, has_trimStart.
Qed.

Lemma join_tidy (l : list string) :
  Forall tidy l -> forall x, tidy x -> tidy (join " " (x :: l)).
Proof.
  induction 1 as [|y l Hy Hl IH]; intros x Hx; [exact Hx|].
  specialize (IH y Hy).
  change (join " " (x :: y :: l)) with (x ++ " " ++ join " " (y :: l)).
  destruct Hx as (N & S & E & H), IH as (NJ & SJ & EJ & HJ).
  destruct (@trimStart_fixed _ S N) as (c & x' & -> & W).
  repeat split.
  - discriminate.
  - simpl. now rewrite W.
  - apply trimEnd_append; [discriminate|].
    now apply (@trimEnd_append " ").
  - now rewrite !has_append, H, HJ.
Qed.

Lemma tafStart_station (line : string) (conts : list string) :
  test tafStartRe line = true ->
  exists u,
    test (times 4 upper) u = true /\
    tafStation (trim line) = Some u /\
    tafStation (join " " (trim line :: conts)) = Some u /\
    test tafStartRe (join " " (trim line :: conts)) = true.
Proof.
  intros S. destruct (@tafStart_head _ S) as (m & tail & _ & Hm & E).
  destruct (join_cons " " (trim line) conts) as (X & ->).
  rewrite E, append_assoc.
  destruct (@tafStation_head _ Hm) as (u & U & St).
  exists u. rewrite !St. auto using tafHead_start.
Qed.

Lemma flushTaf_inv (lines cur : list string) (results : list RawTaf.t) :
  cur = [] \/ tafGroup lines cur ->
  Forall (tafRecord lines) results ->
  Forall (tafRecord lines) (flushTaf cur results) /\
  List.length (flushTaf cur results)
  = List.length results + match cur with [] => 0 | _ :: _ => 1 end.
Proof.
  intros [->|(line & conts & -> & Hin & S & C)] F.
  - unfold flushTaf. simpl. split; [trivial | lia].
  - unfold flushTaf. cbn [List.length Nat.ltb Nat.leb].
    destruct (@tafStart_station _ conts S) as (u & U & E1 & E2 & _).
    rewrite E2. split.
    + apply Forall_app. split; trivial. constructor; [|constructor].
      exists line, conts. cbn [RawTaf.raw RawTaf.station]. auto.
    + rewrite length_app. simpl. lia.
Qed.

Lemma scanTafLines_inv (all : list string) :
  forall lines cur results,
    incl lines all ->
    cur = [] \/ tafGroup all cur ->
    Forall (tafRecord all) results ->
    Forall (tafRecord all) (scanTafLines lines cur results) /\
    List.length (scanTafLines lines cur results)
    = List.length results + match cur with [] => 0 | _ :: _ => 1 end
      + List.length (filter (test tafStartRe) lines).
Proof.
  induction lines as [|line rest IH]; intros cur results I G F.
  - cbn [scanTafLines filter List.length].
    destruct (@flushTaf_inv _ _ _ G F) as (A & B). split; [exact A | lia].
  - assert (Hin : In line all) by (apply I; now left).
    assert (I' : incl rest all) by (intros x Hx; apply I; now right).
    cbn [scanTafLines filter].
    destruct (test tafStartRe line) eqn:S.
    + rewrite (@tafStart_nonblank _ S).
      destruct (@flushTaf_inv _ _ _ G F) as (A & B).
      destruct (IH [trim line] (flushTaf cur results) I') as (A' & B');
        trivial.
      { right. exists line, []. auto. }
      split; [exact A'|]. rewrite B', B. cbn [List.length]. lia.
    + destruct (truthy_str (trim line)) eqn:T; [|now apply IH].
      destruct (0 <? List.length cur)%nat eqn:L; [|now apply IH].
      destruct G as [->|(l0 & conts & -> & H0 & S0 & C0)]; [discriminate|].
      destruct (IH ((trim l0 :: conts) ++ [trim line])%list results I')
        as (A' & B'); trivial.
      { right. exists l0, (conts ++ [trim line])%list.
        repeat split; trivial.
        apply Forall_app. split; trivial. constructor; [|constructor].
        exists line. auto. }
      split; [exact A'|]. rewrite B'. cbn [List.app]. lia.
Qed.

Lemma filter_start_nonblank (lines : list string) :
  filter (test tafStartRe) (filter (fun line => truthy_str (trim line)) lines)
  = filter (test tafStartRe) lines.
Proof.
  induction lines as [|line rest IH]; cbn [filter]; trivial.
  destruct (test tafStartRe line) eqn:S.
  - rewrite (@tafStart_nonblank _ S). cbn [filter]. now rewrite S, IH.
  - destruct (truthy_str (trim line)); cbn [filter]; now rewrite ?S.
Qed.

Lemma getTafByBounds_text_inv (text : string) :
  Forall (tafRecord (split_char "010" text)) (getTafByBounds_text text) /\
  List.length (getTafByBounds_text text)
  = List.length (filter (test tafStartRe) (split_char "010" text)).
Proof.
  unfold getTafByBounds_text.
  destruct (@scanTafLines_inv (split_char "010" text)
              (filter (fun line => truthy_str (trim line))
                 (split_char "010" text)) [] []) as (A & B); auto.
  { intros x Hx. apply filter_In in Hx. tauto. }
  split; [exact A|]. rewrite B, filter_start_nonblank. reflexivity.
Qed.

(** The segmenter yields one record for each line of the text that
    starts a forecast, whatever the other lines are. *)
Theorem getTafByBounds_text_count (text : string) :
  List.length (getTafByBounds_text text)
  = List.length (filter (test tafStartRe) (split_char "010" text)).
Proof. apply getTafByBounds_text_inv. Qed.

(** Every record of the segmenter comes from a line of the text that
    starts a forecast: its raw text is that line, trimmed, followed by the
    trimmed texts of lines that are neither blank nor the start of a
    forecast, separated by single spaces; its station is read off the start
    line alone and is four upper-case letters. *)
Theorem getTafByBounds_text_records (text : string) (r : RawTaf.t) :
  In r (getTafByBounds_text text) ->
  tafRecord (split_char "010" text) r /\
  test (times 4 upper) (RawTaf.station r) = true.
Proof.
  intros Hin. destruct (getTafByBounds_text_inv text) as (A & _).
  rewrite Forall_forall in A. specialize (A r Hin). split; trivial.
  destruct A as (line & conts & _ & S & _ & _ & St).
  destruct (@tafStart_station _ [] S) as (u & U & E & _). congruence.
Qed.

Lemma getTafByBounds_text_records_witness :
  let text := "TAF KDEN 121720Z 1218/1318 27015KT" ++ nl
              ++ "   FM122000 30010KT P6SM  " ++ nl
              ++ "KLAS 121700Z 1218/1324 VRB03KT" ++ nl in
  let r := {| RawTaf.raw := "TAF KDEN 121720Z 1218/1318 27015KT FM122000 30010KT P6SM";
              RawTaf.station := "KDEN" |} in
  tafRecord (split_char "010" text) r /\
  test (times 4 upper) (RawTaf.station r) = true.
Proof.
  intros text r. apply (@getTafByBounds_text_records text r).
  vm_compute. left. reflexivity.
Defined.

(** Idempotence: the raw text of a record of the forecast segmenter,
    segmented again, yields that record alone. *)
Theorem taf_segmentation_idempotent (text : string) (r : RawTaf.t) :
  In r (getTafByBounds_text text) ->
  getTafByBounds_text (RawTaf.raw r) = [r].
Proof.
  intros Hin. destruct (getTafByBounds_text_inv text) as (A & _).
  rewrite Forall_forall in A.
  destruct (A r Hin) as (line & conts & Hl & S & C & Raw & St).
  pose proof (split_char_pieces "010" text) as P.
  rewrite Forall_forall in P.
  assert (T : tidy (RawTaf.raw r)).
  { rewrite Raw. apply join_tidy.
    - apply (Forall_impl _ (P:=continuationOf (split_char "010" text)));
        trivial.
      intros c (l & Hin' & Tl & _ & ->). apply trim_tidy; auto.
    - apply trim_tidy; auto using tafStart_nonblank. }
  destruct T as (N & Ts & Te & H).
  destruct (@tafStart_station _ conts S) as (u & _ & E1 & E2 & E3).
  rewrite <- Raw in E2, E3.
  assert (Tr : trim (RawTaf.raw r) = RawTaf.raw r)
    by (unfold trim; now rewrite Ts, Te).
  apply truthy_str_nonempty in N.
  unfold getTafByBounds_text.
  rewrite (@split_char_single _ _ H). cbn [filter]. rewrite Tr, N.
  cbn [scanTafLines]. rewrite Tr, N, E3.
  unfold flushTaf. cbn [List.length Nat.ltb Nat.leb join]. rewrite E2.
  destruct r as [raw st]. cbn in *. congruence.
Qed.

Lemma taf_segmentation_idempotent_witness :
  getTafByBounds_text "TAF KDEN 121720Z 1218/1318 27015KT FM122000 30010KT P6SM"
  = [{| RawTaf.raw := "TAF KDEN 121720Z 1218/1318 27015KT FM122000 30010KT P6SM";
        RawTaf.station := "KDEN" |}].
Proof.
  apply (@taf_segmentation_idempotent
           ("TAF KDEN 121720Z 1218/1318 27015KT" ++ nl
            ++ "   FM122000 30010KT P6SM  " ++ nl
            ++ "KLAS 121700Z 1218/1324 VRB03KT" ++ nl)
           {| RawTaf.raw := "TAF KDEN 121720Z 1218/1318 27015KT FM122000 30010KT P6SM";
              RawTaf.station := "KDEN" |}).
  vm_compute. left. reflexivity.
Defined.

Lemma tafStart_not_indented (c : ascii) (s : string) :
  isWhitespace c = true -> test tafStartRe (String c s) = false.
Proof.
  intros W. destruct (test tafStartRe (String c s)) eqn:T; trivial.
  destruct (@tafStart_head _ T) as (m & tail & E & Hm & _).
  destruct (@tafHead_ends _ Hm) as (_ & (d & m' & -> & Wd)).
  simpl in E. inversion E; subst. congruence.
Qed.

(** A line that begins with white space never starts a forecast, even
    when its trimmed text begins like one: the segmenter tries the pattern
    on the line as it is.  In the loop such a line, when it is not blank, is
    appended (trimmed) to the forecast at hand and skipped when there is
    none; so an indented line alone yields no record, and a text made of a
    start line and an indented line yields one record, whose raw text holds
    both. *)
Theorem indented_line_never_starts_forecast (c : ascii) (s : string) :
  isWhitespace c = true ->
  (forall rest currentTaf results,
     scanTafLines (String c s :: rest) currentTaf results
     = scanTafLines rest
         (if truthy_str (trim (String c s)) then
            match currentTaf with
            | [] => []
            | _ :: _ => List.app currentTaf [trim (String c s)]
            end
          else currentTaf) results) /\
  (has "010" (String c s) = false ->
   getTafByBounds_text (String c s) = [] /\
   (truthy_str (trim (String c s)) = true ->
    forall first,
      test tafStartRe first = true -> has "010" first = false ->
      exists station,
        tafStation (trim first) = Some station /\
        getTafByBounds_text (first ++ nl ++ String c s)
        = [{| RawTaf.raw := trim first ++ " " ++ trim (String c s);
              RawTaf.station := station |}])).
Proof.
  intros W.
  assert (Step : forall rest currentTaf results,
            scanTafLines (String c s :: rest) currentTaf results
            = scanTafLines rest
                (if truthy_str (trim (String c s)) then
                   match currentTaf with
                   | [] => []
                   | _ :: _ => List.app currentTaf [trim (String c s)]
                   end
                 else currentTaf) results).
  { intros rest currentTaf results. cbn [scanTafLines].
    rewrite (@tafStart_not_indented c s W).
    destruct (truthy_str (trim (String c s))); trivial.
    now destruct currentTaf. }
  split; [exact Step|]. intros H. split.
  - unfold getTafByBounds_text. cbv zeta.
    rewrite (@split_char_single _ _ H). cbn [filter].
    destruct (truthy_str (trim (String c s))) eqn:T; [|reflexivity].
    rewrite (Step [] [] []), ?T. reflexivity.
  - intros T first S Hf.
    destruct (@tafStart_station _ [trim (String c s)] S)
      as (u & _ & E1 & E2 & _).
    exists u. split; trivial.
    unfold getTafByBounds_text, nl. cbv zeta. cbn [append].
    rewrite (@split_char_append _ _ _ Hf), (@split_char_single _ _ H).
    cbn [filter]. rewrite (@tafStart_nonblank _ S), T.
    cbn [scanTafLines].
    rewrite (@tafStart_nonblank _ S), S, T, (@tafStart_not_indented c s W).
    unfold flushTaf. cbn [List.length Nat.ltb Nat.leb List.app].
    rewrite E2. reflexivity.
Qed.

Lemma indented_line_never_starts_forecast_witness :
  getTafByBounds_text
    ("KLAS 121700Z 1218/1324 VRB03KT" ++ nl ++ "  TAF KJFK 121700Z 1218/1324")
  = [{| RawTaf.raw :=
          "KLAS 121700Z 1218/1324 VRB03KT TAF KJFK 121700Z 1218/1324";
        RawTaf.station := "KLAS" |}].
Proof.
  destruct (@indented_line_never_starts_forecast
              " " " TAF KJFK 121700Z 1218/1324" eq_refl)
    as (_ & H).
  destruct (H eq_refl) as (_ & F).
  destruct (F eq_refl "KLAS 121700Z 1218/1324 VRB03KT" eq_refl eq_refl)
    as (station & St & E).
  vm_compute in St. inversion St; subst station. exact E.
Defined.

End TafSegmentation.
